(** * Partial reductions and broadcast assignment of Eigen's VectorwiseOp

    A shallow embedding of [Eigen/src/Array/VectorwiseOp.h]: the expression
    [PartialReduxExpr], the member functors generated by
    [EIGEN_MEMBER_FUNCTOR], and the pseudo expression [VectorwiseOp] with
    its reduction accessors, [reverse], [replicate] and the broadcast
    assignment operators.

    C++ [int] indices and extents are [Z].  A template parameter
    [Scalar] is a type with a [ScalarOps] instance; the 32-bit [int]
    scalar is [Z] with its wrap-around written out. *)

From Stdlib Require Import ZArith List Bool Lia.
Import ListNotations.
Open Scope Z_scope.

Set Implicit Arguments.

(** ** Scalars *)

(** The C++ scalar [int]: a 32-bit two's complement integer. *)
Definition int := Z.

Definition int_min : Z := - 2 ^ 31.
Definition int_max : Z := 2 ^ 31 - 1.

Definition int_wrap (z : Z) : int := (z + 2 ^ 31) mod 2 ^ 32 - 2 ^ 31.

Definition is_int (z : Z) : bool := (int_min <=? z) && (z <=? int_max).

(** What the header asks of a scalar type: the arithmetic used by the
    reductions and by [+=] / [-=], the order used by [maxCoeff], and the
    conversion to [bool] used by [count]. *)
Class ScalarOps (Scalar : Type) : Type := {
  s_zero : Scalar;
  s_add : Scalar -> Scalar -> Scalar;
  s_sub : Scalar -> Scalar -> Scalar;
  s_less : Scalar -> Scalar -> bool;
  s_true : Scalar -> bool
}.

#[export] Instance int_ops : ScalarOps int := {
  s_zero := 0;
  s_add a b := int_wrap (a + b);
  s_sub a b := int_wrap (a - b);
  s_less a b := a <? b;
  s_true a := negb (a =? 0)
}.

#[export] Instance bool_ops : ScalarOps bool := {
  s_zero := false;
  s_add a b := a || b;
  s_sub a b := xorb a b;
  s_less a b := negb a && b;
  s_true a := a
}.

(** A scalar type on which subtracting what was added gives the value
    back exactly, for every value the type can hold.  Integer types are
    of this kind; floating-point types are not. *)
Class ExactScalar (Scalar : Type) `{ScalarOps Scalar} : Type := {
  s_holds : Scalar -> bool;
  s_add_sub : forall a b, s_holds a = true -> s_sub (s_add a b) b = a
}.

Arguments ExactScalar Scalar {_}.

(** [std::max], as [ei_scalar_max_op] uses it. *)
Definition s_max {Scalar} `{ScalarOps Scalar} (a b : Scalar) : Scalar :=
  if s_less a b then b else a.

(** The indices [0, 1, ..., n-1] of a C++ loop [for (int i = 0; i < n; ++i)]. *)
Definition range (n : Z) : list Z := map Z.of_nat (seq 0 (Z.to_nat n)).

(** ** Directions and extents *)

(** The two values of [DirectionType] a [VectorwiseOp] is built with:
    [colwise()] gives [Vertical], [rowwise()] gives [Horizontal]. *)
Inductive DirectionType : Type := Vertical | Horizontal.

Definition isVertical (d : DirectionType) : bool :=
  match d with Vertical => true | Horizontal => false end.

Definition isHorizontal (d : DirectionType) : bool :=
  match d with Vertical => false | Horizontal => true end.

(** A compile-time extent: a fixed size, or [Dynamic]. *)
Inductive Extent : Type := Dynamic | Fixed (n : Z).

Definition Extent_eqb (a b : Extent) : bool :=
  match a, b with
  | Dynamic, Dynamic => true
  | Fixed n, Fixed m => n =? m
  | _, _ => false
  end.

(** A run-time extent agrees with the compile-time one. *)
Definition extent_ok (e : Extent) (n : Z) : bool :=
  match e with Dynamic => true | Fixed k => k =? n end.

(** The [int] a static extent is in the code, [dynamic] being the value
    of the constant [Dynamic], which another header defines. *)
Definition extent_value (dynamic : Z) (e : Extent) : Z :=
  match e with Dynamic => dynamic | Fixed n => n end.

(** [e == Dynamic ? Dynamic : e - 1]. *)
Definition Extent_pred (e : Extent) : Extent :=
  match e with Dynamic => Dynamic | Fixed n => Fixed (n - 1) end.

(** The other direction. *)
Definition opposite (d : DirectionType) : DirectionType :=
  match d with Vertical => Horizontal | Horizontal => Vertical end.

(** ** Matrix expressions *)

Module MatrixBase.

(** Modelled from the spec: the base matrix/vector expression
    abstraction [MatrixBase<Derived>] is not in this header.  The spec
    gives it coordinate-based element access, static and dynamic
    extents and sub-vector extraction; an expression is its
    compile-time extents, its run-time extents and its coefficient
    function. *)
Record t (Scalar : Type) : Type := mk {
  RowsAtCompileTime : Extent;
  ColsAtCompileTime : Extent;
  rows : Z;
  cols : Z;
  coeff : Z -> Z -> Scalar
}.

Section Ops.
Context {Scalar : Type} `{ScalarOps Scalar}.

(** Run-time extents are non-negative and agree with the static ones. *)
Definition wf (m : t Scalar) : bool :=
  (0 <=? rows m) && (0 <=? cols m)
  && extent_ok (RowsAtCompileTime m) (rows m)
  && extent_ok (ColsAtCompileTime m) (cols m).

(** [IsVectorAtCompileTime]: one static extent is 1. *)
Definition IsVectorAtCompileTime (m : t Scalar) : bool :=
  Extent_eqb (RowsAtCompileTime m) (Fixed 1)
  || Extent_eqb (ColsAtCompileTime m) (Fixed 1).

(** Modelled from the spec: [col(j)], the zero-copy view of column
    [j] (a [Block] starting at [(0, j)] of [rows() x 1]). *)
Definition col (m : t Scalar) (j : Z) : t Scalar :=
  {| RowsAtCompileTime := RowsAtCompileTime m;
     ColsAtCompileTime := Fixed 1;
     rows := rows m;
     cols := 1;
     coeff := fun r c => coeff m r (j + c) |}.

(** Modelled from the spec: [row(i)], the zero-copy view of row [i]
    (a [Block] starting at [(i, 0)] of [1 x cols()]). *)
Definition row (m : t Scalar) (i : Z) : t Scalar :=
  {| RowsAtCompileTime := Fixed 1;
     ColsAtCompileTime := ColsAtCompileTime m;
     rows := 1;
     cols := cols m;
     coeff := fun r c => coeff m (i + r) c |}.

(** The coefficients of an expression in the order the whole-matrix
    reductions visit them: column by column. *)
Definition coeffs (m : t Scalar) : list Scalar :=
  flat_map (fun j => map (fun i => coeff m i j) (range (rows m)))
           (range (cols m)).

(** Modelled from the spec: the whole-matrix reduction [sum()], the
    sum of all coefficients. *)
Definition sum (m : t Scalar) : Scalar :=
  fold_left s_add (coeffs m) s_zero.

(** Modelled from the spec: the whole-matrix reduction [maxCoeff()],
    the largest coefficient (of a non-empty expression). *)
Definition maxCoeff (m : t Scalar) : Scalar :=
  match coeffs m with
  | [] => s_zero
  | x :: xs => fold_left s_max xs x
  end.

(** Modelled from the spec: the whole-matrix reduction [count()],
    the number of coefficients that convert to [true], as an [int]. *)
Definition count (m : t Scalar) : int :=
  fold_left (fun n x => if s_true x then n + 1 else n) (coeffs m) 0.

(** Two expressions denote the same matrix. *)
Definition equiv (a b : t Scalar) : Prop :=
  rows a = rows b /\ cols a = cols b /\
  forall i j, 0 <= i < rows a -> 0 <= j < cols a ->
              coeff a i j = coeff b i j.

(** The coefficients as a list of rows. *)
Definition to_lists (m : t Scalar) : list (list Scalar) :=
  map (fun i => map (fun j => coeff m i j) (range (cols m)))
      (range (rows m)).

(** A dynamic-size matrix filled from a list of rows. *)
Definition from_lists (r c : Z) (l : list (list Scalar)) : t Scalar :=
  {| RowsAtCompileTime := Dynamic;
     ColsAtCompileTime := Dynamic;
     rows := r;
     cols := c;
     coeff := fun i j =>
       if (0 <=? i) && (0 <=? j)
       then nth (Z.to_nat j) (nth (Z.to_nat i) l []) s_zero
       else s_zero |}.

End Ops.

End MatrixBase.

(** The extent along the axis a reduction in direction [d] collapses,
    and the extent along the other axis.  [Vertical] reduces every
    column and so collapses the rows; [Horizontal] collapses the
    columns. *)
Definition collapsed_extent (d : DirectionType) (r c : Z) : Z :=
  match d with Vertical => r | Horizontal => c end.

Definition other_extent (d : DirectionType) (r c : Z) : Z :=
  match d with Vertical => c | Horizontal => r end.

(** ** Member functors *)

(** A member functor: its [result_type] and its call operator.  The
    [Cost] member only feeds the evaluator and is left out. *)
Record MemberOp (InputScalar : Type) : Type := {
  result_type : Type;
  call : MatrixBase.t InputScalar -> result_type
}.

Section MemberFunctors.
Context {Scalar : Type} `{ScalarOps Scalar}.

(** [EIGEN_MEMBER_FUNCTOR(sum, ...)] at [ResultType = Scalar]. *)
Definition ei_member_sum : MemberOp Scalar :=
  {| result_type := Scalar; call := MatrixBase.sum |}.

(** [EIGEN_MEMBER_FUNCTOR(maxCoeff, ...)] at [ResultType = Scalar]. *)
Definition ei_member_maxCoeff : MemberOp Scalar :=
  {| result_type := Scalar; call := MatrixBase.maxCoeff |}.

(** [EIGEN_MEMBER_FUNCTOR(count, ...)] at [ResultType = int]. *)
Definition ei_member_count : MemberOp Scalar :=
  {| result_type := int; call := MatrixBase.count |}.

End MemberFunctors.

(** ** The cost the member functors declare *)

(** The cost constants the functors read, [NumTraits<Scalar>::AddCost],
    [NumTraits<Scalar>::MulCost] and
    [ei_functor_traits<ei_scalar_hypot_op<Scalar> >::Cost]: tables of
    other headers, taken as given. *)
Record NumTraits : Type := {
  AddCost : Z;
  MulCost : Z;
  HypotCost : Z
}.

(** The members [EIGEN_MEMBER_FUNCTOR] is expanded for. *)
Inductive Member : Type :=
| member_squaredNorm | member_norm | member_stableNorm | member_blueNorm
| member_hypotNorm | member_sum | member_mean | member_minCoeff
| member_maxCoeff | member_all | member_any | member_count | member_prod.

(** [ei_member_MEMBER::Cost<Scalar, Size>::value], the [COST] argument
    of each expansion. *)
Definition Cost (nt : NumTraits) (member : Member) (Size : Z) : Z :=
  match member with
  | member_squaredNorm => Size * MulCost nt + (Size - 1) * AddCost nt
  | member_norm => (Size + 5) * MulCost nt + (Size - 1) * AddCost nt
  | member_stableNorm => (Size + 5) * MulCost nt + (Size - 1) * AddCost nt
  | member_blueNorm => (Size + 5) * MulCost nt + (Size - 1) * AddCost nt
  | member_hypotNorm => (Size - 1) * HypotCost nt
  | member_sum => (Size - 1) * AddCost nt
  | member_mean => (Size - 1) * AddCost nt + MulCost nt
  | member_minCoeff => (Size - 1) * AddCost nt
  | member_maxCoeff => (Size - 1) * AddCost nt
  | member_all => (Size - 1) * AddCost nt
  | member_any => (Size - 1) * AddCost nt
  | member_count => (Size - 1) * AddCost nt
  | member_prod => (Size - 1) * MulCost nt
  end.

(** [ei_member_redux::Cost<Scalar, Size>::value] for a binary functor of
    cost [functorCost]. *)
Definition redux_Cost (functorCost Size : Z) : Z := (Size - 1) * functorCost.

(** ** PartialReduxExpr *)

Module PartialReduxExpr.

Record t (InputScalar : Type) : Type := mk {
  Direction : DirectionType;
  m_matrix : MatrixBase.t InputScalar;
  m_functor : MemberOp InputScalar
}.

Section Members.
Context {InputScalar : Type}.

(** [ei_traits<PartialReduxExpr>::Scalar]. *)
Definition Scalar (p : t InputScalar) : Type :=
  result_type (m_functor p).

Definition RowsAtCompileTime (p : t InputScalar) : Extent :=
  if isVertical (Direction p) then Fixed 1
  else MatrixBase.RowsAtCompileTime (m_matrix p).

Definition ColsAtCompileTime (p : t InputScalar) : Extent :=
  if isHorizontal (Direction p) then Fixed 1
  else MatrixBase.ColsAtCompileTime (m_matrix p).

(** [TraversalSize = Direction==Vertical ? RowsAtCompileTime :
    ColsAtCompileTime]: the two names are the enumerators declared just
    before it in the same [enum], those of the reduction itself. *)
Definition TraversalSize (p : t InputScalar) : Extent :=
  if isVertical (Direction p) then RowsAtCompileTime p
  else ColsAtCompileTime p.

(** [CoeffReadCost] for member [member], [nested] being
    [ei_traits<_MatrixTypeNested>::CoeffReadCost]. *)
Definition CoeffReadCost (dynamic : Z) (nt : NumTraits) (member : Member)
           (nested : Z) (p : t InputScalar) : Z :=
  extent_value dynamic (TraversalSize p) * nested
  + Cost nt member (extent_value dynamic (TraversalSize p)).

(** [CoeffReadCost] when the functor is [ei_member_redux]. *)
Definition redux_CoeffReadCost (dynamic functorCost nested : Z)
           (p : t InputScalar) : Z :=
  extent_value dynamic (TraversalSize p) * nested
  + redux_Cost functorCost (extent_value dynamic (TraversalSize p)).

Definition rows (p : t InputScalar) : Z :=
  if isVertical (Direction p) then 1 else MatrixBase.rows (m_matrix p).

Definition cols (p : t InputScalar) : Z :=
  if isHorizontal (Direction p) then 1 else MatrixBase.cols (m_matrix p).

(** [coeff(int i, int j)]. *)
Definition coeff (p : t InputScalar) (i j : Z) : Scalar p :=
  if isVertical (Direction p)
  then call (m_functor p) (MatrixBase.col (m_matrix p) j)
  else call (m_functor p) (MatrixBase.row (m_matrix p) i).

(** [coeff(int index)]. *)
Definition coeff_index (p : t InputScalar) (index : Z) : Scalar p :=
  if isVertical (Direction p)
  then call (m_functor p) (MatrixBase.col (m_matrix p) index)
  else call (m_functor p) (MatrixBase.row (m_matrix p) index).

(** The node seen through its [MatrixBase] interface. *)
Definition as_expr (p : t InputScalar) : MatrixBase.t (Scalar p) :=
  {| MatrixBase.RowsAtCompileTime := RowsAtCompileTime p;
     MatrixBase.ColsAtCompileTime := ColsAtCompileTime p;
     MatrixBase.rows := rows p;
     MatrixBase.cols := cols p;
     MatrixBase.coeff := coeff p |}.

End Members.

End PartialReduxExpr.

(** ** Blocks, Reverse and Replicate *)

Module Block.

(** Modelled from the spec: a zero-copy rectangular view
    ([Block<MatrixType>]) of [blockRows x blockCols] coefficients
    starting at [(startRow, startCol)].  The class is not in this
    header; [SubVector] is its column or row instance. *)
Record t : Type := mk {
  startRow : Z;
  startCol : Z;
  blockRows : Z;
  blockCols : Z
}.

Section Ops.
Context {Scalar : Type}.

(** Reading through the view. *)
Definition view (m : MatrixBase.t Scalar) (b : t) : MatrixBase.t Scalar :=
  {| MatrixBase.RowsAtCompileTime := Dynamic;
     MatrixBase.ColsAtCompileTime := Dynamic;
     MatrixBase.rows := blockRows b;
     MatrixBase.cols := blockCols b;
     MatrixBase.coeff := fun r c =>
       MatrixBase.coeff m (startRow b + r) (startCol b + c) |}.

End Ops.

End Block.

(** Two static extents can belong to expressions of the same size:
    a fixed extent never meets a different fixed extent. *)
Definition static_compatible (a b : Extent) : bool :=
  match a, b with
  | Fixed x, Fixed y => x =? y
  | _, _ => true
  end.

(** How the construction of an expression ends. *)
Inductive Construction (A : Type) : Type :=
| Constructed (a : A)
| RejectedStatically
| PreconditionFailed.

Arguments Constructed {A} a.
Arguments RejectedStatically {A}.
Arguments PreconditionFailed {A}.

Section Structural.
Context {Scalar : Type}.

(** Modelled from the spec: the expression [Reverse<ExpressionType,
    Direction>], whose class is not in this header: the sub-vectors
    reversed along the direction, every column upside down for
    [Vertical], every row back to front for [Horizontal]. *)
Definition Reverse (d : DirectionType) (m : MatrixBase.t Scalar)
  : MatrixBase.t Scalar :=
  {| MatrixBase.RowsAtCompileTime := MatrixBase.RowsAtCompileTime m;
     MatrixBase.ColsAtCompileTime := MatrixBase.ColsAtCompileTime m;
     MatrixBase.rows := MatrixBase.rows m;
     MatrixBase.cols := MatrixBase.cols m;
     MatrixBase.coeff := fun i j =>
       match d with
       | Vertical => MatrixBase.coeff m (MatrixBase.rows m - i - 1) j
       | Horizontal => MatrixBase.coeff m i (MatrixBase.cols m - j - 1)
       end |}.

Definition Extent_mul (factor e : Extent) : Extent :=
  match factor, e with
  | Fixed f, Fixed n => Fixed (f * n)
  | _, _ => Dynamic
  end.

(** Modelled from the spec: the expression [Replicate<MatrixType,
    RowFactor, ColFactor>] built from [(matrix, rowFactor, colFactor)],
    whose class is not in this header: the matrix tiled [rowFactor]
    times down the rows and [colFactor] times along the columns. *)
Definition Replicate (RowFactor ColFactor : Extent)
           (m : MatrixBase.t Scalar) (rowFactor colFactor : Z)
  : MatrixBase.t Scalar :=
  {| MatrixBase.RowsAtCompileTime :=
       Extent_mul RowFactor (MatrixBase.RowsAtCompileTime m);
     MatrixBase.ColsAtCompileTime :=
       Extent_mul ColFactor (MatrixBase.ColsAtCompileTime m);
     MatrixBase.rows := MatrixBase.rows m * rowFactor;
     MatrixBase.cols := MatrixBase.cols m * colFactor;
     MatrixBase.coeff := fun i j =>
       MatrixBase.coeff m (Z.rem i (MatrixBase.rows m))
                          (Z.rem j (MatrixBase.cols m)) |}.

(** Modelled from the spec: the elementwise binary expression
    [CwiseBinaryOp<BinaryOp, Lhs, Rhs>], whose class is not in this
    header.  Sides whose static sizes are fixed and different are
    rejected when the expression is compiled; otherwise both sides have
    the same run-time extents or the precondition of the construction
    fails; coefficient [(i, j)] is the functor applied to the two
    coefficients at [(i, j)]. *)
Definition CwiseBinaryOp (f : Scalar -> Scalar -> Scalar)
           (lhs rhs : MatrixBase.t Scalar)
  : Construction (MatrixBase.t Scalar) :=
  if static_compatible (MatrixBase.RowsAtCompileTime lhs)
                       (MatrixBase.RowsAtCompileTime rhs)
     && static_compatible (MatrixBase.ColsAtCompileTime lhs)
                          (MatrixBase.ColsAtCompileTime rhs)
  then
    if (MatrixBase.rows lhs =? MatrixBase.rows rhs)
       && (MatrixBase.cols lhs =? MatrixBase.cols rhs)
    then Constructed
           {| MatrixBase.RowsAtCompileTime := MatrixBase.RowsAtCompileTime lhs;
              MatrixBase.ColsAtCompileTime := MatrixBase.ColsAtCompileTime lhs;
              MatrixBase.rows := MatrixBase.rows lhs;
              MatrixBase.cols := MatrixBase.cols lhs;
              MatrixBase.coeff := fun i j =>
                f (MatrixBase.coeff lhs i j) (MatrixBase.coeff rhs i j) |}
    else PreconditionFailed
  else RejectedStatically.

(** Modelled from the spec: [coeffRef(r, c) = x], the write of one
    coefficient through the single-writer path of the base expression,
    which is not in this header. *)
Definition set_coeff (m : MatrixBase.t Scalar) (r c : Z) (x : Scalar)
  : MatrixBase.t Scalar :=
  {| MatrixBase.RowsAtCompileTime := MatrixBase.RowsAtCompileTime m;
     MatrixBase.ColsAtCompileTime := MatrixBase.ColsAtCompileTime m;
     MatrixBase.rows := MatrixBase.rows m;
     MatrixBase.cols := MatrixBase.cols m;
     MatrixBase.coeff := fun i j =>
       if (i =? r) && (j =? c) then x else MatrixBase.coeff m i j |}.

End Structural.

(** ** The operand of a broadcast assignment *)

Module Operand.

(** The operand [const MatrixBase<OtherDerived>& other]: a reference to
    an expression that is not evaluated beforehand.  Its extents are
    fixed when it is built; each of its coefficients is computed when it
    is read, from the content the expression being written has at that
    moment. *)
Record t (Scalar : Type) : Type := mk {
  RowsAtCompileTime : Extent;
  ColsAtCompileTime : Extent;
  rows : Z;
  cols : Z;
  coeff : MatrixBase.t Scalar -> Z -> Z -> Scalar
}.

Section Ops.
Context {Scalar : Type}.

(** The operand as the expression it is while the target is [m]. *)
Definition eval (o : t Scalar) (m : MatrixBase.t Scalar) : MatrixBase.t Scalar :=
  {| MatrixBase.RowsAtCompileTime := RowsAtCompileTime o;
     MatrixBase.ColsAtCompileTime := ColsAtCompileTime o;
     MatrixBase.rows := rows o;
     MatrixBase.cols := cols o;
     MatrixBase.coeff := coeff o m |}.

(** An operand with storage of its own: the vector [v]. *)
Definition const (v : MatrixBase.t Scalar) : t Scalar :=
  {| RowsAtCompileTime := MatrixBase.RowsAtCompileTime v;
     ColsAtCompileTime := MatrixBase.ColsAtCompileTime v;
     rows := MatrixBase.rows v;
     cols := MatrixBase.cols v;
     coeff := fun _ => MatrixBase.coeff v |}.

(** An operand built as the expression [e] of the target, [m0] being
    the target when the operand is built: [m.col(0)] is
    [reading (fun m => MatrixBase.col m 0) m]. *)
Definition reading (e : MatrixBase.t Scalar -> MatrixBase.t Scalar)
           (m0 : MatrixBase.t Scalar) : t Scalar :=
  {| RowsAtCompileTime := MatrixBase.RowsAtCompileTime (e m0);
     ColsAtCompileTime := MatrixBase.ColsAtCompileTime (e m0);
     rows := MatrixBase.rows (e m0);
     cols := MatrixBase.cols (e m0);
     coeff := fun m => MatrixBase.coeff (e m) |}.

(** The operand reads nothing of the expression being written. *)
Definition independent (o : t Scalar) : Prop :=
  forall m m' r c, coeff o m r c = coeff o m' r c.

End Ops.

End Operand.

(** ** Mutation: the state of a broadcast assignment *)

(** The expression the adaptor refers to, and the sub-vectors an
    assignment has been applied to so far, oldest first. *)
Record World (Scalar : Type) : Type := {
  target : MatrixBase.t Scalar;
  visited : list Z
}.

(** How a call ends: it returns [a] in world [w]; a run-time assertion
    stops it in world [w]; a static assertion rejects it before it runs;
    or the model's loop budget ends in world [w]. *)
Inductive Result (Scalar A : Type) : Type :=
| Done (a : A) (w : World Scalar)
| AssertFailed (w : World Scalar)
| StaticAssertFailed
| OutOfFuel (w : World Scalar).

Arguments Done {Scalar A} a w.
Arguments AssertFailed {Scalar A} w.
Arguments StaticAssertFailed {Scalar A}.
Arguments OutOfFuel {Scalar A} w.

Definition M (Scalar A : Type) : Type := World Scalar -> Result Scalar A.

Definition ret {Scalar A} (a : A) : M Scalar A := fun w => Done a w.

Definition bind {Scalar A B} (c : M Scalar A) (k : A -> M Scalar B)
  : M Scalar B :=
  fun w =>
    match c w with
    | Done a w' => k a w'
    | AssertFailed w' => AssertFailed w'
    | StaticAssertFailed => StaticAssertFailed
    | OutOfFuel w' => OutOfFuel w'
    end.

Notation "c1 ;; c2" := (bind c1 (fun _ => c2))
  (at level 61, right associativity).

(** [for (int j = first; j < bound(); ++j) body(j);] with the bound read
    again before every iteration. *)
Fixpoint for_loop {Scalar} (fuel : nat) (j : Z) (bound : World Scalar -> Z)
         (body : Z -> M Scalar unit) : M Scalar unit :=
  fun w =>
    if j <? bound w then
      match fuel with
      | O => OutOfFuel w
      | S fuel' => (body j ;; for_loop fuel' (j + 1) bound body) w
      end
    else Done tt w.

(** The three broadcast assignment operators. *)
Inductive AssignKind : Type := Assign | PlusAssign | MinusAssign.

Definition assign_fun {Scalar} `{ScalarOps Scalar} (k : AssignKind)
  : Scalar -> Scalar -> Scalar :=
  match k with
  | Assign => fun _ b => b
  | PlusAssign => s_add
  | MinusAssign => s_sub
  end.

(** ** VectorwiseOp *)

Module VectorwiseOp.

Record t (Scalar : Type) : Type := mk {
  Direction : DirectionType;
  m_matrix : MatrixBase.t Scalar
}.

Section Members.
Context {Scalar : Type} `{ScalarOps Scalar}.

Definition _expression (v : t Scalar) : MatrixBase.t Scalar := m_matrix v.

(** The geometry of [subVector(i)]: column [i] for [Vertical], row
    [i] otherwise. *)
Definition subVector (d : DirectionType) (m : MatrixBase.t Scalar) (i : Z)
  : Block.t :=
  if isVertical d
  then Block.mk 0 i (MatrixBase.rows m) 1
  else Block.mk i 0 1 (MatrixBase.cols m).

Definition subVectors (d : DirectionType) (m : MatrixBase.t Scalar) : Z :=
  if isVertical d then MatrixBase.cols m else MatrixBase.rows m.

(** Reduction accessors: each wraps [_expression()] in a
    [PartialReduxExpr] with the member functor of its name. *)
Definition sum (v : t Scalar) : PartialReduxExpr.t Scalar :=
  PartialReduxExpr.mk (Direction v) (_expression v) ei_member_sum.

Definition maxCoeff (v : t Scalar) : PartialReduxExpr.t Scalar :=
  PartialReduxExpr.mk (Direction v) (_expression v) ei_member_maxCoeff.

Definition count (v : t Scalar) : PartialReduxExpr.t Scalar :=
  PartialReduxExpr.mk (Direction v) (_expression v) ei_member_count.

Definition reverse (v : t Scalar) : MatrixBase.t Scalar :=
  Reverse (Direction v) (_expression v).

(** [template<int Factor> replicate(int factor = Factor)]. *)
Definition replicate_static (Factor : Z) (v : t Scalar) (factor : Z)
  : MatrixBase.t Scalar :=
  Replicate (if isVertical (Direction v) then Fixed Factor else Fixed 1)
            (if isHorizontal (Direction v) then Fixed Factor else Fixed 1)
            (_expression v)
            (if isVertical (Direction v) then factor else 1)
            (if isHorizontal (Direction v) then factor else 1).

(** Modelled from the spec: [replicate(int factor)], of which this
    header has the declaration and its return type but not the body:
    the same tiling as its compile-time sibling, with the [Dynamic]
    factors of the declared return type. *)
Definition replicate (v : t Scalar) (factor : Z) : MatrixBase.t Scalar :=
  Replicate (if isVertical (Direction v) then Dynamic else Fixed 1)
            (if isHorizontal (Direction v) then Dynamic else Fixed 1)
            (_expression v)
            (if isVertical (Direction v) then factor else 1)
            (if isHorizontal (Direction v) then factor else 1).

(** Modelled from the spec: [EIGEN_STATIC_ASSERT_VECTOR_ONLY], whose
    macro is not in this header: the operand's type must be a vector
    type, or the call is rejected when it is compiled. *)
Definition static_assert_vector_only (other : MatrixBase.t Scalar) : bool :=
  MatrixBase.IsVectorAtCompileTime other.

(** The static extents of the type [SubVector]: [ColXpr] for
    [Vertical], [RowXpr] otherwise. *)
Definition SubVector_static (d : DirectionType) (m : MatrixBase.t Scalar)
  : Extent * Extent :=
  if isVertical d then (MatrixBase.RowsAtCompileTime m, Fixed 1)
  else (Fixed 1, MatrixBase.ColsAtCompileTime m).

(** Modelled from the spec: the compile-time part of
    [subVector(j) = other], [+= other] and [-= other], whose operators
    are not in this header: an operand whose static size is fixed and
    different from that of [SubVector] is rejected when the statement
    is compiled, whether the loop around it ever runs or not. *)
Definition static_assert_same_size (v : t Scalar) (other : MatrixBase.t Scalar)
  : bool :=
  static_compatible (fst (SubVector_static (Direction v) (m_matrix v)))
                    (MatrixBase.RowsAtCompileTime other)
  && static_compatible (snd (SubVector_static (Direction v) (m_matrix v)))
                       (MatrixBase.ColsAtCompileTime other).

(** The number of coefficients of a sub-vector. *)
Definition subVector_size (d : DirectionType) (m : MatrixBase.t Scalar) : Z :=
  if isVertical d then MatrixBase.rows m else MatrixBase.cols m.

(** Modelled from the spec: coefficient [i] of [subVector(j) op= other].
    The operand is read as the target is when this coefficient is
    written: nothing is evaluated into a temporary. *)
Definition write_element (k : AssignKind) (d : DirectionType) (j : Z)
           (other : Operand.t Scalar) (m : MatrixBase.t Scalar) (i : Z)
  : MatrixBase.t Scalar :=
  if isVertical d
  then set_coeff m i j (assign_fun k (MatrixBase.coeff m i j)
                                     (Operand.coeff other m i 0))
  else set_coeff m j i (assign_fun k (MatrixBase.coeff m j i)
                                     (Operand.coeff other m 0 i)).

(** Modelled from the spec: the run-time part of [subVector(j) = other],
    [+= other] and [-= other]: the operand has the extents of the
    sub-vector or the precondition fails before anything is written,
    with no resize or truncation; then the coefficients are written one
    after the other, from the first to the last. *)
Definition subVector_apply (k : AssignKind) (d : DirectionType) (j : Z)
           (other : Operand.t Scalar) : M Scalar unit :=
  fun w =>
    let b := subVector d (target w) j in
    if (Operand.rows other =? Block.blockRows b)
       && (Operand.cols other =? Block.blockCols b)
    then Done tt {| target := fold_left (write_element k d j other)
                                        (range (subVector_size d (target w)))
                                        (target w);
                    visited := visited w ++ [j] |}
    else AssertFailed w.

(** The world a broadcast assignment starts in. *)
Definition initial (v : t Scalar) : World Scalar :=
  {| target := m_matrix v; visited := [] |}.

(** [return const_cast<ExpressionType&>(m_matrix);] *)
Definition return_m_matrix : M Scalar (MatrixBase.t Scalar) :=
  fun w => Done (target w) w.

(** [operator=]: copies the vector [other] to each sub-vector.  The
    second test is the static assertion of the statement in the loop. *)
Definition operator_assign (v : t Scalar) (other : Operand.t Scalar)
  : Result Scalar (MatrixBase.t Scalar) :=
  if static_assert_vector_only (Operand.eval other (m_matrix v)) then
    if static_assert_same_size v (Operand.eval other (m_matrix v)) then
      (for_loop (Z.to_nat (subVectors (Direction v) (m_matrix v))) 0
                (fun w => subVectors (Direction v) (target w))
                (fun j => subVector_apply Assign (Direction v) j other) ;;
       return_m_matrix) (initial v)
    else StaticAssertFailed
  else StaticAssertFailed.

(** [operator+=]: adds the vector [other] to each sub-vector. *)
Definition operator_plus_assign (v : t Scalar) (other : Operand.t Scalar)
  : Result Scalar (MatrixBase.t Scalar) :=
  if static_assert_vector_only (Operand.eval other (m_matrix v)) then
    if static_assert_same_size v (Operand.eval other (m_matrix v)) then
      (for_loop (Z.to_nat (subVectors (Direction v) (m_matrix v))) 0
                (fun w => subVectors (Direction v) (target w))
                (fun j => subVector_apply PlusAssign (Direction v) j other) ;;
       return_m_matrix) (initial v)
    else StaticAssertFailed
  else StaticAssertFailed.

(** [operator-=]: subtracts the vector [other] from each sub-vector. *)
Definition operator_minus_assign (v : t Scalar) (other : Operand.t Scalar)
  : Result Scalar (MatrixBase.t Scalar) :=
  if static_assert_vector_only (Operand.eval other (m_matrix v)) then
    if static_assert_same_size v (Operand.eval other (m_matrix v)) then
      (for_loop (Z.to_nat (subVectors (Direction v) (m_matrix v))) 0
                (fun w => subVectors (Direction v) (target w))
                (fun j => subVector_apply MinusAssign (Direction v) j other) ;;
       return_m_matrix) (initial v)
    else StaticAssertFailed
  else StaticAssertFailed.

(** Any of the three broadcast assignments. *)
Definition broadcast (k : AssignKind)
  : t Scalar -> Operand.t Scalar -> Result Scalar (MatrixBase.t Scalar) :=
  match k with
  | Assign => operator_assign
  | PlusAssign => operator_plus_assign
  | MinusAssign => operator_minus_assign
  end.

(** [extendedTo]: the vector [other] replicated to the size of the
    expression. *)
Definition extendedTo (v : t Scalar) (other : MatrixBase.t Scalar)
  : Result Scalar (MatrixBase.t Scalar) :=
  if static_assert_vector_only other then
    Done (Replicate
            (if isVertical (Direction v) then Fixed 1
             else MatrixBase.RowsAtCompileTime (m_matrix v))
            (if isHorizontal (Direction v) then Fixed 1
             else MatrixBase.ColsAtCompileTime (m_matrix v))
            other
            (if isVertical (Direction v) then 1 else MatrixBase.rows (m_matrix v))
            (if isHorizontal (Direction v) then 1 else MatrixBase.cols (m_matrix v)))
         (initial v)
  else StaticAssertFailed.

(** [operator+]: the expression of the sum of the vector [other] to
    each sub-vector, [m_matrix + extendedTo(other).nestByValue()]. *)
Definition operator_plus (v : t Scalar) (other : MatrixBase.t Scalar)
  : Result Scalar (MatrixBase.t Scalar) :=
  if static_assert_vector_only other then
    match extendedTo v other with
    | Done e w =>
        match CwiseBinaryOp s_add (m_matrix v) e with
        | Constructed r => Done r w
        | RejectedStatically => StaticAssertFailed
        | PreconditionFailed => AssertFailed w
        end
    | r => r
    end
  else StaticAssertFailed.

(** [operator-]: the expression of the difference between each
    sub-vector and the vector [other],
    [m_matrix - extendedTo(other).nestByValue()]. *)
Definition operator_minus (v : t Scalar) (other : MatrixBase.t Scalar)
  : Result Scalar (MatrixBase.t Scalar) :=
  if static_assert_vector_only other then
    match extendedTo v other with
    | Done e w =>
        match CwiseBinaryOp s_sub (m_matrix v) e with
        | Constructed r => Done r w
        | RejectedStatically => StaticAssertFailed
        | PreconditionFailed => AssertFailed w
        end
    | r => r
    end
  else StaticAssertFailed.

(** The static extents of the types [hnormalized()] returns a quotient
    of: [HNormalized_Size], [HNormalized_SizeMinusOne], the rows and
    columns of [HNormalized_Block] and of [HNormalized_Factors], and
    those of the [Replicate] of the factors. *)
Definition HNormalized_Size (v : t Scalar) : Extent :=
  if isVertical (Direction v) then MatrixBase.RowsAtCompileTime (m_matrix v)
  else MatrixBase.ColsAtCompileTime (m_matrix v).

Definition HNormalized_SizeMinusOne (v : t Scalar) : Extent :=
  Extent_pred (HNormalized_Size v).

Definition HNormalized_Block (v : t Scalar) : Extent * Extent :=
  (if isVertical (Direction v) then HNormalized_SizeMinusOne v
   else MatrixBase.RowsAtCompileTime (m_matrix v),
   if isHorizontal (Direction v) then HNormalized_SizeMinusOne v
   else MatrixBase.ColsAtCompileTime (m_matrix v)).

Definition HNormalized_Factors (v : t Scalar) : Extent * Extent :=
  (if isVertical (Direction v) then Fixed 1
   else MatrixBase.RowsAtCompileTime (m_matrix v),
   if isHorizontal (Direction v) then Fixed 1
   else MatrixBase.ColsAtCompileTime (m_matrix v)).

Definition HNormalized_Replicate (v : t Scalar) : Extent * Extent :=
  (Extent_mul (if isVertical (Direction v) then HNormalized_SizeMinusOne v
               else Fixed 1)
              (fst (HNormalized_Factors v)),
   Extent_mul (if isHorizontal (Direction v) then HNormalized_SizeMinusOne v
               else Fixed 1)
              (snd (HNormalized_Factors v))).

(** The operand has exactly the extents of a sub-vector. *)
Definition sized_to_subVector (v : t Scalar) (other : MatrixBase.t Scalar)
  : bool :=
  let b := subVector (Direction v) (m_matrix v) 0 in
  (MatrixBase.rows other =? Block.blockRows b)
  && (MatrixBase.cols other =? Block.blockCols b).

(** No shape error: a vector type of the extents of a sub-vector. *)
Definition shape_ok (v : t Scalar) (other : MatrixBase.t Scalar) : bool :=
  MatrixBase.IsVectorAtCompileTime other && sized_to_subVector v other.

(** No shape error in a broadcast assignment: the operand is of a
    vector type whose static size does not contradict that of
    [SubVector], and has the extents of a sub-vector. *)
Definition operand_ok (v : t Scalar) (other : Operand.t Scalar) : bool :=
  shape_ok v (Operand.eval other (m_matrix v))
  && static_assert_same_size v (Operand.eval other (m_matrix v)).

End Members.

End VectorwiseOp.

(** [MatrixBase::colwise()] and [MatrixBase::rowwise()]. *)
Definition colwise {Scalar} (m : MatrixBase.t Scalar) : VectorwiseOp.t Scalar :=
  VectorwiseOp.mk Vertical m.

Definition rowwise {Scalar} (m : MatrixBase.t Scalar) : VectorwiseOp.t Scalar :=
  VectorwiseOp.mk Horizontal m.

(** The adaptor of a direction. *)
Definition vectorwise {Scalar} (d : DirectionType) (m : MatrixBase.t Scalar)
  : VectorwiseOp.t Scalar :=
  match d with Vertical => colwise m | Horizontal => rowwise m end.

(** The elements of sub-vector [k] read straight from the matrix:
    column [k] from top to bottom for [Vertical], row [k] from left to
    right for [Horizontal]. *)
Definition subVector_elements {Scalar} (d : DirectionType)
           (m : MatrixBase.t Scalar) (k : Z) : list Scalar :=
  match d with
  | Vertical => map (fun i => MatrixBase.coeff m i k) (range (MatrixBase.rows m))
  | Horizontal => map (fun j => MatrixBase.coeff m k j) (range (MatrixBase.cols m))
  end.

(** Sub-vector [k] as a view: column [k] for [Vertical], row [k] for
    [Horizontal]. *)
Definition subVector_view {Scalar} (d : DirectionType)
           (m : MatrixBase.t Scalar) (k : Z) : MatrixBase.t Scalar :=
  match d with
  | Vertical => MatrixBase.col m k
  | Horizontal => MatrixBase.row m k
  end.

(** The matrix [[1,2,3],[4,5,6]] of the concrete scenario. *)
Definition M23 : MatrixBase.t int :=
  MatrixBase.from_lists 2 3 [[1; 2; 3]; [4; 5; 6]].


(** ** What a broadcast assignment leaves behind *)

(** The indices [lo, lo+1, ..., hi-1]. *)
Definition interval (lo hi : Z) : list Z :=
  map (fun i => lo + i) (range (hi - lo)).

(** Position [(r, c)] lies in one of the sub-vectors [lo, lo+1, ...]
    of [m]. *)
Definition touched {Scalar} (d : DirectionType) (m : MatrixBase.t Scalar)
           (lo r c : Z) : bool :=
  match d with
  | Vertical => (0 <=? r) && (r <? MatrixBase.rows m)
                && (lo <=? c) && (c <? MatrixBase.cols m)
  | Horizontal => (lo <=? r) && (r <? MatrixBase.rows m)
                  && (0 <=? c) && (c <? MatrixBase.cols m)
  end.

(** Position [(r, c)] lies in sub-vector [j] of [m]. *)
Definition in_subVector {Scalar} (d : DirectionType) (m : MatrixBase.t Scalar)
           (j r c : Z) : bool :=
  match d with
  | Vertical => (0 <=? r) && (r <? MatrixBase.rows m) && (c =? j)
  | Horizontal => (r =? j) && (0 <=? c) && (c <? MatrixBase.cols m)
  end.

(** The coefficient of the vector operand that meets position [(r, c)]. *)
Definition operand_at {Scalar} (d : DirectionType)
           (other : MatrixBase.t Scalar) (r c : Z) : Scalar :=
  match d with
  | Vertical => MatrixBase.coeff other r 0
  | Horizontal => MatrixBase.coeff other 0 c
  end.

(** Every coefficient of [m] is a value the scalar type holds. *)
Definition all_hold {Scalar} `{ExactScalar Scalar} (m : MatrixBase.t Scalar)
  : bool :=
  forallb s_holds (MatrixBase.coeffs m).

(** A dynamic-size column vector ([Matrix<Scalar, Dynamic, 1>]). *)
Definition column_vector {Scalar} `{ScalarOps Scalar} (l : list Scalar)
  : MatrixBase.t Scalar :=
  {| MatrixBase.RowsAtCompileTime := Dynamic;
     MatrixBase.ColsAtCompileTime := Fixed 1;
     MatrixBase.rows := Z.of_nat (length l);
     MatrixBase.cols := 1;
     MatrixBase.coeff := fun i j =>
       if (0 <=? i) && (j =? 0) then nth (Z.to_nat i) l s_zero else s_zero |}.

(** A dynamic-size row vector ([Matrix<Scalar, 1, Dynamic>]). *)
Definition row_vector {Scalar} `{ScalarOps Scalar} (l : list Scalar)
  : MatrixBase.t Scalar :=
  {| MatrixBase.RowsAtCompileTime := Fixed 1;
     MatrixBase.ColsAtCompileTime := Dynamic;
     MatrixBase.rows := 1;
     MatrixBase.cols := Z.of_nat (length l);
     MatrixBase.coeff := fun i j =>
       if (i =? 0) && (0 <=? j) then nth (Z.to_nat j) l s_zero else s_zero |}.

(** The null matrix: a dynamic-size matrix with no coefficient. *)
Definition null_matrix : MatrixBase.t int := MatrixBase.from_lists 0 0 [].

(** A matrix whose first column sits at the two ends of [int]. *)
Definition M_ends : MatrixBase.t int :=
  MatrixBase.from_lists 2 3 [[int_max; 2; 3]; [int_min; 5; 6]].

(** Position [(r, c)] is element [i] of sub-vector [j] for some
    [lo <= i < hi]. *)
Definition written (d : DirectionType) (j lo hi r c : Z) : bool :=
  match d with
  | Vertical => (c =? j) && (lo <=? r) && (r <? hi)
  | Horizontal => (r =? j) && (lo <=? c) && (c <? hi)
  end.

(** A 2x3 matrix and a vector of three coefficients of fixed sizes. *)
Definition M23_fixed : MatrixBase.t int :=
  {| MatrixBase.RowsAtCompileTime := Fixed 2;
     MatrixBase.ColsAtCompileTime := Fixed 3;
     MatrixBase.rows := 2;
     MatrixBase.cols := 3;
     MatrixBase.coeff := MatrixBase.coeff M23 |}.

Definition vector3_fixed : MatrixBase.t int :=
  {| MatrixBase.RowsAtCompileTime := Fixed 3;
     MatrixBase.ColsAtCompileTime := Fixed 1;
     MatrixBase.rows := 3;
     MatrixBase.cols := 1;
     MatrixBase.coeff := MatrixBase.coeff (column_vector [7; 8; 9]) |}.

(** * Properties *)

(** ** Lists of indices *)

Lemma range_1 : range 1 = [0].
Proof. reflexivity. Qed.

Lemma flat_map_singleton {A B} (f : A -> B) (l : list A) :
  flat_map (fun x => [f x]) l = map f l.
Proof.
  induction l as [|a l IH]; simpl; [reflexivity|].
  now rewrite IH.
Qed.

Lemma in_range (n x : Z) : In x (range n) <-> 0 <= x < n.
Proof.
  unfold range. rewrite in_map_iff. split.
  - intros [k [<- Hk]]. apply in_seq in Hk. lia.
  - intros Hx. exists (Z.to_nat x). split; [lia|].
    apply in_seq. lia.
Qed.

Lemma range_succ (n : Z) : 0 <= n -> range (n + 1) = range n ++ [n].
Proof.
  intros Hn. unfold range.
  replace (Z.to_nat (n + 1)) with (Z.to_nat n + 1)%nat by lia.
  rewrite seq_app, map_app. simpl. now rewrite Z2Nat.id.
Qed.

Lemma range_nonpos (n : Z) : n <= 0 -> range n = [].
Proof.
  intros Hn. unfold range. now replace (Z.to_nat n) with 0%nat by lia.
Qed.

(** ** Sub-vectors seen by the member functors *)

Section Reductions.
Context {Scalar : Type} `{ScalarOps Scalar}.

Lemma coeffs_col (m : MatrixBase.t Scalar) (k : Z) :
  MatrixBase.coeffs (MatrixBase.col m k) = subVector_elements Vertical m k.
Proof.
  unfold MatrixBase.coeffs, MatrixBase.col, subVector_elements.
  cbn [MatrixBase.rows MatrixBase.cols MatrixBase.coeff].
  rewrite range_1. cbn [flat_map]. rewrite app_nil_r.
  apply map_ext. intros i. now rewrite Z.add_0_r.
Qed.

Lemma coeffs_row (m : MatrixBase.t Scalar) (k : Z) :
  MatrixBase.coeffs (MatrixBase.row m k) = subVector_elements Horizontal m k.
Proof.
  unfold MatrixBase.coeffs, MatrixBase.row, subVector_elements.
  cbn [MatrixBase.rows MatrixBase.cols MatrixBase.coeff].
  rewrite range_1. cbn [map]. rewrite flat_map_singleton.
  apply map_ext. intros j. now rewrite Z.add_0_r.
Qed.

Lemma count_fold (l : list Scalar) (a : Z) :
  fold_left (fun n x => if s_true x then n + 1 else n) l a
  = a + Z.of_nat (length (filter s_true l)).
Proof.
  revert a. induction l as [|x l IH]; intros a; simpl; [lia|].
  rewrite IH. destruct (s_true x); simpl; lia.
Qed.

End Reductions.

(** C1.  For every matrix [M], either direction and every [k], the sum
    partial reduction has extent 1 along the collapsed axis and the
    extent of [M] along the other one, at run time and at compile time,
    and its coefficient [k], through either accessor, is the sum of the
    elements of column [k] (for [Vertical]) or row [k] (for [Horizontal])
    of [M]. *)
Theorem sum_partial_redux {Scalar} `{ScalarOps Scalar}
        (d : DirectionType) (m : MatrixBase.t Scalar) (k : Z) :
  let p := VectorwiseOp.sum (vectorwise d m) in
  collapsed_extent d (PartialReduxExpr.rows p) (PartialReduxExpr.cols p) = 1
  /\ other_extent d (PartialReduxExpr.rows p) (PartialReduxExpr.cols p)
     = other_extent d (MatrixBase.rows m) (MatrixBase.cols m)
  /\ (if isVertical d then PartialReduxExpr.RowsAtCompileTime p
      else PartialReduxExpr.ColsAtCompileTime p) = Fixed 1
  /\ (if isVertical d then PartialReduxExpr.ColsAtCompileTime p
      else PartialReduxExpr.RowsAtCompileTime p)
     = (if isVertical d then MatrixBase.ColsAtCompileTime m
        else MatrixBase.RowsAtCompileTime m)
  /\ PartialReduxExpr.coeff_index p k
     = fold_left s_add (subVector_elements d m k) s_zero
  /\ (if isVertical d then PartialReduxExpr.coeff p 0 k
      else PartialReduxExpr.coeff p k 0)
     = fold_left s_add (subVector_elements d m k) s_zero.
Proof.
  assert (Hc : MatrixBase.sum (MatrixBase.col m k)
               = fold_left s_add (subVector_elements Vertical m k) s_zero)
    by (unfold MatrixBase.sum; now rewrite coeffs_col).
  assert (Hr : MatrixBase.sum (MatrixBase.row m k)
               = fold_left s_add (subVector_elements Horizontal m k) s_zero)
    by (unfold MatrixBase.sum; now rewrite coeffs_row).
  destruct d; repeat split; solve [reflexivity | exact Hc | exact Hr].
Qed.

(** C2.  For [M = [[1,2,3],[4,5,6]]] the column-wise sum is [[5,7,9]]
    of shape 1x3, the row-wise sum is [[6,15]] of shape 2x1, and the
    column-wise maximum is [[4,5,6]]. *)
Theorem scenario_2x3 :
  let csum := PartialReduxExpr.as_expr (VectorwiseOp.sum (colwise M23)) in
  let rsum := PartialReduxExpr.as_expr (VectorwiseOp.sum (rowwise M23)) in
  let cmax := PartialReduxExpr.as_expr (VectorwiseOp.maxCoeff (colwise M23)) in
  MatrixBase.to_lists csum = [[5; 7; 9]]
  /\ (MatrixBase.rows csum, MatrixBase.cols csum) = (1, 3)
  /\ MatrixBase.to_lists rsum = [[6]; [15]]
  /\ (MatrixBase.rows rsum, MatrixBase.cols rsum) = (2, 1)
  /\ MatrixBase.to_lists cmax = [[4; 5; 6]].
Proof. vm_compute. repeat split; reflexivity. Qed.

(** C3.  For every matrix [M] of any scalar type, either direction and
    every [k], coefficient [k] of the count partial reduction is the
    number of elements of sub-vector [k] that convert to [true], and the
    scalar type of the reduction is [int]. *)
Theorem count_partial_redux {Scalar} `{ScalarOps Scalar}
        (d : DirectionType) (m : MatrixBase.t Scalar) (k : Z) :
  let p := VectorwiseOp.count (vectorwise d m) in
  PartialReduxExpr.Scalar p = int
  /\ PartialReduxExpr.coeff_index p k
     = Z.of_nat (length (filter s_true (subVector_elements d m k)))
  /\ (if isVertical d then PartialReduxExpr.coeff p 0 k
      else PartialReduxExpr.coeff p k 0)
     = Z.of_nat (length (filter s_true (subVector_elements d m k))).
Proof.
  assert (Hc : MatrixBase.count (MatrixBase.col m k)
               = Z.of_nat (length (filter s_true (subVector_elements Vertical m k))))
    by (unfold MatrixBase.count; now rewrite coeffs_col, count_fold).
  assert (Hr : MatrixBase.count (MatrixBase.row m k)
               = Z.of_nat (length (filter s_true (subVector_elements Horizontal m k))))
    by (unfold MatrixBase.count; now rewrite coeffs_row, count_fold).
  destruct d; repeat split; solve [reflexivity | exact Hc | exact Hr].
Qed.

(** The count of a matrix of [bool] is an [int] too. *)
Example count_of_bool :
  MatrixBase.to_lists
    (PartialReduxExpr.as_expr
       (VectorwiseOp.count
          (colwise (MatrixBase.from_lists 2 3 [[true; false; true];
                                               [true; false; false]]))))
  = [[2; 0; 1]].
Proof. reflexivity. Qed.

(** C10.  For every [PartialReduxExpr], whatever its functor, and every
    index [k], the flat accessor agrees with the two-index one:
    [coeff(k) = coeff(0,k)] when the direction is [Vertical] and
    [coeff(k) = coeff(k,0)] when it is [Horizontal]. *)
Theorem coeff_index_agrees {InputScalar} (p : PartialReduxExpr.t InputScalar)
        (k : Z) :
  match PartialReduxExpr.Direction p with
  | Vertical => PartialReduxExpr.coeff_index p k = PartialReduxExpr.coeff p 0 k
  | Horizontal => PartialReduxExpr.coeff_index p k = PartialReduxExpr.coeff p k 0
  end.
Proof.
  destruct p as [[|] m f]; reflexivity.
Qed.

(** ** Reverse and replicate *)

(** C7.  For every matrix [M] and direction [A], reversing twice along
    [A] through the axis adaptor gives an expression equal to [M]: the
    same extents and, at every position, the same coefficient. *)
Theorem reverse_reverse {Scalar}
        (d : DirectionType) (m : MatrixBase.t Scalar) :
  MatrixBase.equiv
    (VectorwiseOp.reverse (vectorwise d (VectorwiseOp.reverse (vectorwise d m))))
    m.
Proof.
  destruct d; repeat split; intros i j _ _; simpl; f_equal; lia.
Qed.


Lemma rem_small (r i : Z) : 0 <= i < r -> Z.rem i r = i.
Proof. intros Hi. apply Z.rem_small. lia. Qed.




(** ** The broadcast loop *)

Lemma interval_nil (lo hi : Z) : hi <= lo -> interval lo hi = [].
Proof.
  intros Hle. unfold interval. rewrite range_nonpos by lia. reflexivity.
Qed.

Lemma interval_cons (lo hi : Z) :
  lo < hi -> interval lo hi = lo :: interval (lo + 1) hi.
Proof.
  intros Hlt. unfold interval, range.
  replace (Z.to_nat (hi - lo)) with (S (Z.to_nat (hi - (lo + 1)))) by lia.
  cbn [seq map]. rewrite Z.add_0_r. f_equal.
  rewrite <- seq_shift, !map_map.
  apply map_ext. intros a. lia.
Qed.

Lemma interval_0 (n : Z) : interval 0 n = range n.
Proof.
  unfold interval. rewrite Z.sub_0_r.
  rewrite <- (map_id (range n)) at 2. apply map_ext. intros a. lia.
Qed.

(** Case analysis on every integer comparison of the goal. *)
Ltac zcases :=
  repeat match goal with
         | |- context [?a <=? ?b] => destruct (Z.leb_spec a b)
         | |- context [?a <? ?b] => destruct (Z.ltb_spec a b)
         | |- context [?a =? ?b] => destruct (Z.eqb_spec a b)
         end;
  cbn [andb orb negb]; try reflexivity; try lia.

Section BroadcastLoop.
Context {Scalar : Type} `{ScalarOps Scalar}.
Variable k : AssignKind.
Variable d : DirectionType.
Variable other : Operand.t Scalar.

(** The run-time check of a sub-vector assignment, for target [m]. *)
Definition fits (m : MatrixBase.t Scalar) : bool :=
  (Operand.rows other =? Block.blockRows (VectorwiseOp.subVector d m 0))
  && (Operand.cols other =? Block.blockCols (VectorwiseOp.subVector d m 0)).

Lemma fits_same_extents (m m' : MatrixBase.t Scalar) :
  MatrixBase.rows m' = MatrixBase.rows m ->
  MatrixBase.cols m' = MatrixBase.cols m ->
  fits m' = fits m.
Proof.
  unfold fits. destruct d; cbn; intros Hr Hc; rewrite ?Hr, ?Hc; reflexivity.
Qed.

Lemma subVectors_same_extents (m m' : MatrixBase.t Scalar) :
  MatrixBase.rows m' = MatrixBase.rows m ->
  MatrixBase.cols m' = MatrixBase.cols m ->
  VectorwiseOp.subVectors d m' = VectorwiseOp.subVectors d m.
Proof.
  unfold VectorwiseOp.subVectors. destruct d; cbn; intros Hr Hc; assumption.
Qed.

Lemma touched_same_extents (m m' : MatrixBase.t Scalar) (lo r c : Z) :
  MatrixBase.rows m' = MatrixBase.rows m ->
  MatrixBase.cols m' = MatrixBase.cols m ->
  touched d m' lo r c = touched d m lo r c.
Proof. unfold touched. intros -> ->. reflexivity. Qed.

(** Writing coefficients never changes the extents. *)
Lemma fold_write_extents (j : Z) (l : list Z) :
  forall m,
    MatrixBase.rows (fold_left (VectorwiseOp.write_element k d j other) l m)
    = MatrixBase.rows m
    /\ MatrixBase.cols (fold_left (VectorwiseOp.write_element k d j other) l m)
       = MatrixBase.cols m.
Proof.
  induction l as [|i l IH]; intros m; cbn [fold_left]; [split; reflexivity|].
  destruct (IH (VectorwiseOp.write_element k d j other m i)) as [Hr Hc].
  rewrite Hr, Hc. unfold VectorwiseOp.write_element.
  destruct d; split; reflexivity.
Qed.

(** One written coefficient. *)
Lemma write_element_coeff (m : MatrixBase.t Scalar) (j i r c : Z) :
  MatrixBase.coeff (VectorwiseOp.write_element k d j other m i) r c
  = if written d j i (i + 1) r c
    then assign_fun k (MatrixBase.coeff m r c)
                    (operand_at d (Operand.eval other m) r c)
    else MatrixBase.coeff m r c.
Proof.
  unfold VectorwiseOp.write_element, written, operand_at, set_coeff.
  destruct d; cbn; zcases; subst; try reflexivity;
    replace r with i by lia || replace c with i by lia; reflexivity.
Qed.

Lemma operand_at_independent (m m' : MatrixBase.t Scalar) (r c : Z) :
  Operand.independent other ->
  operand_at d (Operand.eval other m') r c
  = operand_at d (Operand.eval other m) r c.
Proof.
  intros Hind. unfold operand_at. destruct d; cbn; apply Hind.
Qed.

(** The coefficients of one sub-vector written one after the other,
    when the operand reads nothing of the target. *)
Lemma fold_write_coeff (Hind : Operand.independent other) (n : nat) :
  forall (lo hi : Z) (m : MatrixBase.t Scalar) (j r c : Z),
    Z.to_nat (hi - lo) = n ->
    MatrixBase.coeff
      (fold_left (VectorwiseOp.write_element k d j other) (interval lo hi) m) r c
    = if written d j lo hi r c
      then assign_fun k (MatrixBase.coeff m r c)
                      (operand_at d (Operand.eval other m) r c)
      else MatrixBase.coeff m r c.
Proof.
  induction n as [|n IH]; intros lo hi m j r c Hn.
  - rewrite interval_nil by lia. cbn [fold_left].
    unfold written. destruct d; zcases.
  - rewrite interval_cons by lia. cbn [fold_left].
    rewrite IH by lia.
    rewrite (operand_at_independent m _ r c Hind).
    rewrite write_element_coeff.
    unfold written. destruct d; zcases.
Qed.

Lemma written_in_subVector (m : MatrixBase.t Scalar) (j r c : Z) :
  written d j 0 (VectorwiseOp.subVector_size d m) r c = in_subVector d m j r c.
Proof.
  unfold written, in_subVector, VectorwiseOp.subVector_size.
  destruct d; cbn; zcases.
Qed.

(** One sub-vector assignment whose operand fits. *)
Lemma subVector_apply_fits (j : Z) (w : World Scalar) :
  fits (target w) = true ->
  exists m1,
    VectorwiseOp.subVector_apply k d j other w
    = Done tt {| target := m1; visited := visited w ++ [j] |}
    /\ MatrixBase.rows m1 = MatrixBase.rows (target w)
    /\ MatrixBase.cols m1 = MatrixBase.cols (target w)
    /\ (Operand.independent other ->
        forall r c,
          MatrixBase.coeff m1 r c
          = if in_subVector d (target w) j r c
            then assign_fun k (MatrixBase.coeff (target w) r c)
                            (operand_at d (Operand.eval other (target w)) r c)
            else MatrixBase.coeff (target w) r c).
Proof.
  intros Hfit. eexists. split; [|split; [|split]].
  - unfold VectorwiseOp.subVector_apply.
    replace ((Operand.rows other
              =? Block.blockRows (VectorwiseOp.subVector d (target w) j))
             && (Operand.cols other
                 =? Block.blockCols (VectorwiseOp.subVector d (target w) j)))
      with true; [reflexivity|].
    rewrite <- Hfit. unfold fits. destruct d; reflexivity.
  - apply fold_write_extents.
  - apply fold_write_extents.
  - intros Hind r c. rewrite <- interval_0.
    rewrite (fold_write_coeff Hind (n := Z.to_nat (VectorwiseOp.subVector_size d (target w) - 0)))
      by reflexivity.
    now rewrite written_in_subVector.
Qed.

Lemma subVector_apply_misfit (j : Z) (w : World Scalar) :
  fits (target w) = false ->
  VectorwiseOp.subVector_apply k d j other w = AssertFailed w.
Proof.
  intros Hfit. unfold VectorwiseOp.subVector_apply.
  replace ((Operand.rows other
            =? Block.blockRows (VectorwiseOp.subVector d (target w) j))
           && (Operand.cols other
               =? Block.blockCols (VectorwiseOp.subVector d (target w) j)))
    with false; [reflexivity|].
  rewrite <- Hfit. unfold fits. destruct d; reflexivity.
Qed.

Lemma touched_step (m : MatrixBase.t Scalar) (j r c : Z) :
  j < VectorwiseOp.subVectors d m ->
  touched d m j r c = in_subVector d m j r c || touched d m (j + 1) r c.
Proof.
  unfold touched, in_subVector, VectorwiseOp.subVectors.
  destruct d; cbn; intros Hj; zcases.
Qed.

Lemma touched_next (m : MatrixBase.t Scalar) (j r c : Z) :
  in_subVector d m j r c = true -> touched d m (j + 1) r c = false.
Proof.
  unfold touched, in_subVector. destruct d; cbn; zcases.
Qed.

Lemma touched_none (m : MatrixBase.t Scalar) (j r c : Z) :
  VectorwiseOp.subVectors d m <= j -> touched d m j r c = false.
Proof.
  unfold touched, VectorwiseOp.subVectors. destruct d; cbn; intros Hj; zcases.
Qed.

(** The loop from sub-vector [j] on, when the operand fits: it ends,
    it has visited [j, j+1, ...] in this order and it keeps the
    extents, whatever the operand reads; when the operand reads nothing
    of the target, it has applied the operand once to every coefficient
    of the sub-vectors from [j] on and to nothing else. *)
Lemma for_loop_fits (fuel : nat) :
  forall (j : Z) (w : World Scalar),
    fits (target w) = true ->
    (Z.to_nat (VectorwiseOp.subVectors d (target w) - j) <= fuel)%nat ->
    exists w',
      for_loop fuel j (fun w => VectorwiseOp.subVectors d (target w))
               (fun j => VectorwiseOp.subVector_apply k d j other) w
      = Done tt w'
      /\ MatrixBase.rows (target w') = MatrixBase.rows (target w)
      /\ MatrixBase.cols (target w') = MatrixBase.cols (target w)
      /\ visited w' = visited w ++ interval j (VectorwiseOp.subVectors d (target w))
      /\ (Operand.independent other ->
          forall r c,
            MatrixBase.coeff (target w') r c
            = if touched d (target w) j r c
              then assign_fun k (MatrixBase.coeff (target w) r c)
                              (operand_at d (Operand.eval other (target w)) r c)
              else MatrixBase.coeff (target w) r c).
Proof.
  induction fuel as [|fuel IH]; intros j w Hfit Hfuel.
  - exists w. cbn [for_loop].
    destruct (Z.ltb_spec j (VectorwiseOp.subVectors d (target w))); [lia|].
    repeat split.
    + rewrite interval_nil by lia. now rewrite app_nil_r.
    + intros _ r c. now rewrite touched_none by lia.
  - cbn [for_loop].
    destruct (Z.ltb_spec j (VectorwiseOp.subVectors d (target w))) as [Hlt|Hge].
    + unfold bind at 1.
      destruct (subVector_apply_fits j w Hfit) as (m1 & Hstep & Hr1 & Hc1 & Hco1).
      rewrite Hstep.
      set (w1 := {| target := m1; visited := visited w ++ [j] |}).
      assert (Hn1 : VectorwiseOp.subVectors d (target w1)
                    = VectorwiseOp.subVectors d (target w))
        by (apply subVectors_same_extents; assumption).
      destruct (IH (j + 1) w1) as (w' & Hrun & Hr & Hc & Hv & Hco).
      * cbn [target w1]. now rewrite (fits_same_extents (target w) m1 Hr1 Hc1).
      * rewrite Hn1. lia.
      * exists w'. split; [exact Hrun|].
        cbn [target w1] in Hr, Hc.
        split; [congruence|]. split; [congruence|]. split.
        -- rewrite Hv, Hn1. cbn [visited w1]. rewrite <- app_assoc. cbn [app].
           now rewrite (interval_cons Hlt).
        -- intros Hind r c. rewrite (Hco Hind). cbn [target w1].
           rewrite (touched_same_extents (target w) m1 (j + 1) r c Hr1 Hc1).
           rewrite (operand_at_independent (target w) m1 r c Hind).
           rewrite (Hco1 Hind).
           rewrite (touched_step _ r c Hlt).
           destruct (in_subVector d (target w) j r c) eqn:Hin; cbn [orb].
           ++ now rewrite (touched_next _ _ _ _ Hin).
           ++ reflexivity.
    + exists w. repeat split.
      * rewrite interval_nil by lia. now rewrite app_nil_r.
      * intros _ r c. now rewrite touched_none by lia.
Qed.

End BroadcastLoop.

(** ** The three operators *)

Section Broadcast.
Context {Scalar : Type} `{ScalarOps Scalar}.

Lemma broadcast_unfold (k : AssignKind) (v : VectorwiseOp.t Scalar)
      (other : Operand.t Scalar) :
  VectorwiseOp.broadcast k v other
  = if VectorwiseOp.static_assert_vector_only
         (Operand.eval other (VectorwiseOp.m_matrix v))
    then
      if VectorwiseOp.static_assert_same_size
           v (Operand.eval other (VectorwiseOp.m_matrix v))
      then
        (for_loop (Z.to_nat (VectorwiseOp.subVectors (VectorwiseOp.Direction v)
                                                     (VectorwiseOp.m_matrix v))) 0
                  (fun w => VectorwiseOp.subVectors (VectorwiseOp.Direction v) (target w))
                  (fun j => VectorwiseOp.subVector_apply k (VectorwiseOp.Direction v) j other) ;;
         VectorwiseOp.return_m_matrix) (VectorwiseOp.initial v)
      else StaticAssertFailed
    else StaticAssertFailed.
Proof. destruct k; reflexivity. Qed.

Lemma touched_valid (d : DirectionType) (m : MatrixBase.t Scalar) (r c : Z) :
  0 <= r < MatrixBase.rows m -> 0 <= c < MatrixBase.cols m ->
  touched d m 0 r c = true.
Proof. unfold touched. destruct d; intros Hr Hc; zcases. Qed.

(** What [operand_ok] is made of. *)
Lemma operand_ok_parts (v : VectorwiseOp.t Scalar) (other : Operand.t Scalar) :
  VectorwiseOp.operand_ok v other = true ->
  VectorwiseOp.static_assert_vector_only
    (Operand.eval other (VectorwiseOp.m_matrix v)) = true
  /\ VectorwiseOp.static_assert_same_size
       v (Operand.eval other (VectorwiseOp.m_matrix v)) = true
  /\ fits (VectorwiseOp.Direction v) other (VectorwiseOp.m_matrix v) = true.
Proof.
  unfold VectorwiseOp.operand_ok, VectorwiseOp.shape_ok. intros Hok.
  apply andb_true_iff in Hok as [Hok Hst].
  apply andb_true_iff in Hok as [Hvec Hsz].
  repeat split; assumption.
Qed.

Lemma operand_ok_same_extents (d : DirectionType) (m m' : MatrixBase.t Scalar)
      (other : Operand.t Scalar) :
  MatrixBase.rows m' = MatrixBase.rows m ->
  MatrixBase.cols m' = MatrixBase.cols m ->
  MatrixBase.RowsAtCompileTime m' = MatrixBase.RowsAtCompileTime m ->
  MatrixBase.ColsAtCompileTime m' = MatrixBase.ColsAtCompileTime m ->
  VectorwiseOp.operand_ok (VectorwiseOp.mk d m') other
  = VectorwiseOp.operand_ok (VectorwiseOp.mk d m) other.
Proof.
  unfold VectorwiseOp.operand_ok, VectorwiseOp.shape_ok,
    VectorwiseOp.sized_to_subVector, VectorwiseOp.static_assert_same_size,
    VectorwiseOp.SubVector_static.
  destruct d; cbn; intros Hr Hc Hsr Hsc; rewrite ?Hr, ?Hc, ?Hsr, ?Hsc; reflexivity.
Qed.

(** A broadcast assignment without shape error runs to its end. *)
Lemma broadcast_fits (k : AssignKind) (v : VectorwiseOp.t Scalar)
      (other : Operand.t Scalar) :
  VectorwiseOp.operand_ok v other = true ->
  exists w,
    VectorwiseOp.broadcast k v other = Done (target w) w
    /\ MatrixBase.rows (target w) = MatrixBase.rows (VectorwiseOp.m_matrix v)
    /\ MatrixBase.cols (target w) = MatrixBase.cols (VectorwiseOp.m_matrix v)
    /\ visited w = range (VectorwiseOp.subVectors (VectorwiseOp.Direction v)
                                                  (VectorwiseOp.m_matrix v))
    /\ (Operand.independent other ->
        forall r c,
          MatrixBase.coeff (target w) r c
          = if touched (VectorwiseOp.Direction v) (VectorwiseOp.m_matrix v) 0 r c
            then assign_fun k (MatrixBase.coeff (VectorwiseOp.m_matrix v) r c)
                            (operand_at (VectorwiseOp.Direction v)
                                        (Operand.eval other (VectorwiseOp.m_matrix v))
                                        r c)
            else MatrixBase.coeff (VectorwiseOp.m_matrix v) r c).
Proof.
  intros Hok. destruct (operand_ok_parts v other Hok) as (Hvec & Hst & Hsz).
  rewrite broadcast_unfold, Hvec, Hst.
  destruct (@for_loop_fits _ _ k (VectorwiseOp.Direction v) other
              (Z.to_nat (VectorwiseOp.subVectors (VectorwiseOp.Direction v)
                                                 (VectorwiseOp.m_matrix v)))
              0 (VectorwiseOp.initial v))
    as (w & Hrun & Hr & Hc & Hv & Hco).
  - exact Hsz.
  - cbn [VectorwiseOp.initial target]. lia.
  - exists w. unfold bind. rewrite Hrun.
    split; [reflexivity|]. split; [exact Hr|]. split; [exact Hc|].
    split; [|exact Hco].
    rewrite Hv. cbn [VectorwiseOp.initial target visited app].
    apply interval_0.
Qed.

(** With at least one sub-vector, an operand that passes the static
    assertions but has not the extents of a sub-vector fails the
    precondition of sub-vector 0. *)
Lemma broadcast_misfit (k : AssignKind) (v : VectorwiseOp.t Scalar)
      (other : Operand.t Scalar) :
  VectorwiseOp.static_assert_vector_only
    (Operand.eval other (VectorwiseOp.m_matrix v)) = true ->
  VectorwiseOp.static_assert_same_size
    v (Operand.eval other (VectorwiseOp.m_matrix v)) = true ->
  fits (VectorwiseOp.Direction v) other (VectorwiseOp.m_matrix v) = false ->
  0 < VectorwiseOp.subVectors (VectorwiseOp.Direction v) (VectorwiseOp.m_matrix v) ->
  VectorwiseOp.broadcast k v other = AssertFailed (VectorwiseOp.initial v).
Proof.
  intros Hvec Hst Hsz Hsub.
  rewrite broadcast_unfold, Hvec, Hst. unfold bind at 1.
  destruct (Z.to_nat (VectorwiseOp.subVectors (VectorwiseOp.Direction v)
                                              (VectorwiseOp.m_matrix v)))
    as [|fuel] eqn:Hfuel; [lia|].
  cbn [for_loop]. cbn [VectorwiseOp.initial target].
  destruct (Z.ltb_spec 0 (VectorwiseOp.subVectors (VectorwiseOp.Direction v)
                                                  (VectorwiseOp.m_matrix v)));
    [|lia].
  unfold bind. rewrite subVector_apply_misfit; [reflexivity | exact Hsz].
Qed.

(** An operand that fails a static assertion is rejected. *)
Lemma broadcast_rejected (k : AssignKind) (v : VectorwiseOp.t Scalar)
      (other : Operand.t Scalar) :
  VectorwiseOp.static_assert_vector_only
    (Operand.eval other (VectorwiseOp.m_matrix v))
  && VectorwiseOp.static_assert_same_size
       v (Operand.eval other (VectorwiseOp.m_matrix v)) = false ->
  VectorwiseOp.broadcast k v other = StaticAssertFailed.
Proof.
  intros Hst. rewrite broadcast_unfold.
  destruct (VectorwiseOp.static_assert_vector_only _); [|reflexivity].
  cbn [andb] in Hst. now rewrite Hst.
Qed.

(** Without a sub-vector the loop body never runs: the call returns
    the expression as it is. *)
Lemma broadcast_empty (k : AssignKind) (v : VectorwiseOp.t Scalar)
      (other : Operand.t Scalar) :
  VectorwiseOp.static_assert_vector_only
    (Operand.eval other (VectorwiseOp.m_matrix v)) = true ->
  VectorwiseOp.static_assert_same_size
    v (Operand.eval other (VectorwiseOp.m_matrix v)) = true ->
  VectorwiseOp.subVectors (VectorwiseOp.Direction v) (VectorwiseOp.m_matrix v) <= 0 ->
  VectorwiseOp.broadcast k v other
  = Done (VectorwiseOp.m_matrix v) (VectorwiseOp.initial v).
Proof.
  intros Hvec Hst Hsub.
  rewrite broadcast_unfold, Hvec, Hst. unfold bind.
  replace (Z.to_nat (VectorwiseOp.subVectors (VectorwiseOp.Direction v)
                                             (VectorwiseOp.m_matrix v)))
    with 0%nat by lia.
  cbn [for_loop VectorwiseOp.initial target].
  destruct (Z.ltb_spec 0 (VectorwiseOp.subVectors (VectorwiseOp.Direction v)
                                                  (VectorwiseOp.m_matrix v)));
    [lia | reflexivity].
Qed.

(** A broadcast assignment is applied to every sub-vector or to none:
    it is rejected statically, or stopped with the expression as it
    was, or it returns after visiting all the sub-vectors.  The loop
    budget of the model is never used up. *)
Lemma broadcast_never_partial (k : AssignKind) (v : VectorwiseOp.t Scalar)
      (other : Operand.t Scalar) :
  VectorwiseOp.broadcast k v other = StaticAssertFailed
  \/ VectorwiseOp.broadcast k v other = AssertFailed (VectorwiseOp.initial v)
  \/ exists w,
      VectorwiseOp.broadcast k v other = Done (target w) w
      /\ visited w = range (VectorwiseOp.subVectors (VectorwiseOp.Direction v)
                                                    (VectorwiseOp.m_matrix v)).
Proof.
  destruct (VectorwiseOp.static_assert_vector_only
              (Operand.eval other (VectorwiseOp.m_matrix v))) eqn:Hvec;
    [|left; apply broadcast_rejected; now rewrite Hvec].
  destruct (VectorwiseOp.static_assert_same_size
              v (Operand.eval other (VectorwiseOp.m_matrix v))) eqn:Hst;
    [|left; apply broadcast_rejected; now rewrite Hvec, Hst].
  destruct (fits (VectorwiseOp.Direction v) other (VectorwiseOp.m_matrix v)) eqn:Hsz.
  - right. right.
    destruct (broadcast_fits k v other) as (w & Hrun & _ & _ & Hv & _).
    + unfold VectorwiseOp.operand_ok, VectorwiseOp.shape_ok.
      apply andb_true_iff. split; [apply andb_true_iff; split|]; assumption.
    + exists w. now split.
  - destruct (Z.ltb_spec 0 (VectorwiseOp.subVectors (VectorwiseOp.Direction v)
                                                    (VectorwiseOp.m_matrix v)))
      as [Hpos|Hnone].
    + right. left. now apply broadcast_misfit.
    + right. right. exists (VectorwiseOp.initial v).
      split; [now apply broadcast_empty|].
      cbn [VectorwiseOp.initial visited]. now rewrite range_nonpos.
Qed.

Lemma coeff_in_coeffs (m : MatrixBase.t Scalar) (r c : Z) :
  0 <= r < MatrixBase.rows m -> 0 <= c < MatrixBase.cols m ->
  In (MatrixBase.coeff m r c) (MatrixBase.coeffs m).
Proof.
  intros Hr Hc. unfold MatrixBase.coeffs. apply in_flat_map.
  exists c. split; [now apply in_range|].
  apply in_map_iff. exists r. split; [reflexivity | now apply in_range].
Qed.

End Broadcast.

(** Writing coefficients never changes the static extents either. *)
Section StaticExtents.
Context {Scalar : Type} `{ScalarOps Scalar}.

Lemma fold_write_static (k : AssignKind) (d : DirectionType) (j : Z)
      (other : Operand.t Scalar) (l : list Z) :
  forall m,
    MatrixBase.RowsAtCompileTime
      (fold_left (VectorwiseOp.write_element k d j other) l m)
    = MatrixBase.RowsAtCompileTime m
    /\ MatrixBase.ColsAtCompileTime
         (fold_left (VectorwiseOp.write_element k d j other) l m)
       = MatrixBase.ColsAtCompileTime m.
Proof.
  induction l as [|i l IH]; intros m; cbn [fold_left]; [split; reflexivity|].
  destruct (IH (VectorwiseOp.write_element k d j other m i)) as [Hr Hc].
  rewrite Hr, Hc. unfold VectorwiseOp.write_element.
  destruct d; split; reflexivity.
Qed.

Lemma for_loop_static (k : AssignKind) (d : DirectionType)
      (other : Operand.t Scalar) (fuel : nat) :
  forall (j : Z) (w w' : World Scalar),
    for_loop fuel j (fun w => VectorwiseOp.subVectors d (target w))
             (fun j => VectorwiseOp.subVector_apply k d j other) w
    = Done tt w' ->
    MatrixBase.RowsAtCompileTime (target w')
    = MatrixBase.RowsAtCompileTime (target w)
    /\ MatrixBase.ColsAtCompileTime (target w')
       = MatrixBase.ColsAtCompileTime (target w).
Proof.
  induction fuel as [|fuel IH]; intros j w w'; cbn [for_loop];
    destruct (Z.ltb_spec j (VectorwiseOp.subVectors d (target w))).
  - discriminate.
  - intros [= <-]. split; reflexivity.
  - unfold bind at 1. unfold VectorwiseOp.subVector_apply at 1.
    destruct (_ && _); [|discriminate].
    intros Hrun. apply IH in Hrun. cbn [target] in Hrun.
    destruct (fold_write_static k d j other
                (range (VectorwiseOp.subVector_size d (target w))) (target w))
      as [Hr Hc].
    destruct Hrun as [Hr' Hc']. split; congruence.
  - intros [= <-]. split; reflexivity.
Qed.

Lemma broadcast_static (k : AssignKind) (v : VectorwiseOp.t Scalar)
      (other : Operand.t Scalar) (m1 : MatrixBase.t Scalar) (w : World Scalar) :
  VectorwiseOp.broadcast k v other = Done m1 w ->
  MatrixBase.RowsAtCompileTime m1
  = MatrixBase.RowsAtCompileTime (VectorwiseOp.m_matrix v)
  /\ MatrixBase.ColsAtCompileTime m1
     = MatrixBase.ColsAtCompileTime (VectorwiseOp.m_matrix v).
Proof.
  rewrite broadcast_unfold.
  destruct (VectorwiseOp.static_assert_vector_only _); [|discriminate].
  destruct (VectorwiseOp.static_assert_same_size _ _); [|discriminate].
  unfold bind.
  destruct (for_loop _ _ _ _ _) as [[] w'| | |] eqn:Hrun; try discriminate.
  unfold VectorwiseOp.return_m_matrix. intros [= <- <-].
  exact (for_loop_static _ _ _ _ _ _ Hrun).
Qed.

End StaticExtents.

Lemma int_wrap_add_sub (a b : Z) :
  is_int a = true -> int_wrap (int_wrap (a + b) - b) = a.
Proof.
  unfold is_int, int_min, int_max, int_wrap. intros Ha.
  apply andb_true_iff in Ha as [Hlo Hhi].
  apply Z.leb_le in Hlo. apply Z.leb_le in Hhi.
  replace ((a + b + 2 ^ 31) mod 2 ^ 32 - 2 ^ 31 - b + 2 ^ 31)
    with ((a + b + 2 ^ 31) mod 2 ^ 32 - b) by lia.
  rewrite Zminus_mod_idemp_l.
  replace (a + b + 2 ^ 31 - b) with (a + 2 ^ 31) by lia.
  rewrite Z.mod_small by lia. lia.
Qed.

(** [int] gives back exactly what was added, wrap-around included. *)
#[export] Instance int_exact : ExactScalar int := {
  s_holds := is_int;
  s_add_sub := int_wrap_add_sub
}.

(** ** Broadcast assignment *)

(** C4, as the code has it.  For every matrix [M], axis adaptor over
    [M] and vector [v] of the extents of the sub-vectors whose
    coefficients are not read from [M]: [adaptor += v] returns a matrix
    in which every sub-vector is the original one plus [v], coefficient
    by coefficient; and when the scalar type gives back exactly what
    was added, as [int] does, a following [adaptor -= v] returns a
    matrix equal to [M]. *)
Theorem plus_assign_then_minus_assign {Scalar} `{ScalarOps Scalar}
        (v : VectorwiseOp.t Scalar) (other : Operand.t Scalar)
        (Hshape : VectorwiseOp.operand_ok v other = true)
        (Hind : Operand.independent other) :
  let d := VectorwiseOp.Direction v in
  let m := VectorwiseOp.m_matrix v in
  let value := Operand.eval other m in
  exists m1 w1,
    VectorwiseOp.operator_plus_assign v other = Done m1 w1
    /\ (forall s i j,
           0 <= s < other_extent d (MatrixBase.rows m) (MatrixBase.cols m) ->
           0 <= i < MatrixBase.rows value -> 0 <= j < MatrixBase.cols value ->
           MatrixBase.coeff (subVector_view d m1 s) i j
           = s_add (MatrixBase.coeff (subVector_view d m s) i j)
                   (MatrixBase.coeff value i j))
    /\ forall E : ExactScalar Scalar,
        all_hold m = true ->
        exists m2 w2,
          VectorwiseOp.operator_minus_assign (VectorwiseOp.mk d m1) other
          = Done m2 w2
          /\ MatrixBase.equiv m2 m.
Proof.
  intros d m value.
  destruct (broadcast_fits PlusAssign v other Hshape)
    as (w1 & Hrun & Hr & Hc & _ & Hco).
  specialize (Hco Hind). fold d m in Hr, Hc, Hco.
  destruct (broadcast_static PlusAssign v other Hrun) as [Hsr Hsc].
  fold m in Hsr, Hsc.
  exists (target w1), w1. split; [exact Hrun|]. split.
  - intros s i j Hs Hi Hj.
    destruct (operand_ok_parts v other Hshape) as (_ & _ & Hsz).
    unfold fits in Hsz. fold d m in Hsz.
    apply andb_true_iff in Hsz as [Hro Hcl].
    apply Z.eqb_eq in Hro. apply Z.eqb_eq in Hcl.
    subst value. cbn [Operand.eval MatrixBase.rows MatrixBase.cols] in Hi, Hj.
    destruct d; cbn in Hs, Hro, Hcl |- *; rewrite Hco.
    + replace (s + j) with s by lia. replace j with 0 by lia.
      rewrite touched_valid by lia. reflexivity.
    + replace (s + i) with s by lia. replace i with 0 by lia.
      rewrite touched_valid by lia. reflexivity.
  - intros E Hall.
    assert (Hshape1 : VectorwiseOp.operand_ok (VectorwiseOp.mk d (target w1)) other
                      = true).
    { rewrite (operand_ok_same_extents d m (target w1) other Hr Hc Hsr Hsc).
      destruct v as [dv mv]. exact Hshape. }
    destruct (broadcast_fits MinusAssign (VectorwiseOp.mk d (target w1)) other Hshape1)
      as (w2 & Hrun2 & Hr2 & Hc2 & _ & Hco2).
    specialize (Hco2 Hind).
    cbn [VectorwiseOp.m_matrix VectorwiseOp.Direction] in Hr2, Hc2, Hco2.
    exists (target w2), w2. split; [exact Hrun2|].
    split; [congruence|]. split; [congruence|].
    intros r c Hrr Hcc.
    assert (Hrm : 0 <= r < MatrixBase.rows m) by congruence.
    assert (Hcm : 0 <= c < MatrixBase.cols m) by congruence.
    rewrite Hco2, (touched_same_extents d m (target w1) 0 r c Hr Hc), Hco.
    rewrite (touched_valid d m Hrm Hcm).
    rewrite (operand_at_independent d m (target w1) r c Hind).
    cbn [assign_fun]. apply s_add_sub.
    unfold all_hold in Hall. rewrite forallb_forall in Hall.
    apply Hall. now apply coeff_in_coeffs.
Qed.

Lemma plus_assign_then_minus_assign_witness :
  VectorwiseOp.operand_ok (colwise M_ends) (Operand.const (column_vector [1; -1]))
  = true
  /\ Operand.independent (Operand.const (column_vector [1; -1] : MatrixBase.t int))
  /\ all_hold M_ends = true
  /\ exists m1 w1,
      VectorwiseOp.operator_plus_assign
        (colwise M_ends) (Operand.const (column_vector [1; -1]))
      = Done m1 w1
      /\ MatrixBase.to_lists m1 = [[int_min; 3; 4]; [int_max; 4; 5]]
      /\ exists m2 w2,
          VectorwiseOp.operator_minus_assign
            (colwise m1) (Operand.const (column_vector [1; -1]))
          = Done m2 w2
          /\ MatrixBase.equiv m2 M_ends.
Proof.
  split; [reflexivity|]. split; [intros m m' r c; reflexivity|].
  split; [reflexivity|].
  destruct (@plus_assign_then_minus_assign int _
              (colwise M_ends) (Operand.const (column_vector [1; -1]))
              eq_refl (fun m m' r c => eq_refl))
    as (m1 & w1 & Hrun & _ & Hback).
  exists m1, w1. split; [exact Hrun|].
  split; [injection Hrun as <- _; reflexivity|].
  exact (Hback int_exact eq_refl).
Defined.

(** C4, as stated, fails for an operand that reads [M]: with
    [v = m.col(0)] on the 2x3 matrix, [m.colwise() += v] gives
    [[2,4,5],[8,13,14]], because [v] is read again once column 0 has
    been written; column 1 is [4,13] and not the original [2,5] plus
    the [1,4] that [v] was, and a following [m.colwise() -= v] gives
    [[0,4,5],[0,13,14]] and not [M]. *)
Lemma aliased_operand_counterexample :
  let other := Operand.reading (fun m => MatrixBase.col m 0) M23 in
  VectorwiseOp.operand_ok (colwise M23) other = true
  /\ MatrixBase.to_lists (Operand.eval other M23) = [[1]; [4]]
  /\ MatrixBase.to_lists (subVector_view Vertical M23 1) = [[2]; [5]]
  /\ match VectorwiseOp.operator_plus_assign (colwise M23) other with
     | Done m1 _ =>
         MatrixBase.to_lists m1 = [[2; 4; 5]; [8; 13; 14]]
         /\ MatrixBase.to_lists (subVector_view Vertical m1 1) <> [[2 + 1]; [5 + 4]]
         /\ match VectorwiseOp.operator_minus_assign (colwise m1) other with
            | Done m2 _ =>
                MatrixBase.to_lists m2 = [[0; 4; 5]; [0; 13; 14]]
                /\ MatrixBase.to_lists m2 <> MatrixBase.to_lists M23
            | _ => False
            end
     | _ => False
     end.
Proof.
  vm_compute. repeat split; try reflexivity; discriminate.
Qed.

(** The same re-reading with [operator=]: on [[1,2],[3,4]],
    [m.colwise() = m.rowwise().sum()] writes the row sums [3,7] into
    column 0 and then the row sums of the matrix so changed, [5,11],
    into column 1. *)
Example assign_of_rowwise_sums :
  let m := MatrixBase.from_lists 2 2 [[1; 2]; [3; 4]] in
  let other :=
    Operand.reading
      (fun m => PartialReduxExpr.as_expr (VectorwiseOp.sum (rowwise m))
                : MatrixBase.t int) m in
  match VectorwiseOp.operator_assign (colwise m) other with
  | Done m1 _ => MatrixBase.to_lists m1 = [[3; 5]; [7; 11]]
  | _ => False
  end.
Proof. vm_compute. reflexivity. Qed.


(** With at least one sub-vector, every shape error of a broadcast
    assignment is detected before anything is written: an operand whose
    type is not a vector type, or whose static size is fixed and
    different from that of a sub-vector, is rejected when the call is
    compiled, and any other operand that has not the extents of a
    sub-vector fails the run-time precondition of sub-vector 0 with the
    expression as it was and no sub-vector visited. *)
Theorem shape_error_detected {Scalar} `{ScalarOps Scalar}
        (k : AssignKind) (v : VectorwiseOp.t Scalar) (other : Operand.t Scalar)
        (Herr : VectorwiseOp.operand_ok v other = false)
        (Hsub : 0 < VectorwiseOp.subVectors (VectorwiseOp.Direction v)
                                            (VectorwiseOp.m_matrix v)) :
  let type := Operand.eval other (VectorwiseOp.m_matrix v) in
  let compiles := VectorwiseOp.static_assert_vector_only type
                  && VectorwiseOp.static_assert_same_size v type in
  (compiles = false /\ VectorwiseOp.broadcast k v other = StaticAssertFailed)
  \/ (compiles = true
      /\ VectorwiseOp.broadcast k v other
         = AssertFailed {| target := VectorwiseOp.m_matrix v; visited := [] |}).
Proof.
  intros type compiles.
  destruct compiles eqn:Hcomp.
  - right. split; [reflexivity|].
    subst compiles. apply andb_true_iff in Hcomp as [Hvec Hst].
    apply broadcast_misfit; try assumption.
    unfold VectorwiseOp.operand_ok, VectorwiseOp.shape_ok in Herr.
    fold type in Herr. rewrite Hst, andb_true_r in Herr.
    unfold VectorwiseOp.static_assert_vector_only in Hvec.
    rewrite Hvec in Herr. exact Herr.
  - left. split; [reflexivity|]. now apply broadcast_rejected.
Qed.

Lemma shape_error_detected_witness :
  VectorwiseOp.operand_ok (colwise M23) (Operand.const (column_vector [7; 8; 9]))
  = false
  /\ 0 < VectorwiseOp.subVectors Vertical M23
  /\ VectorwiseOp.operator_assign (colwise M23)
                                  (Operand.const (column_vector [7; 8; 9]))
     = AssertFailed {| target := M23; visited := [] |}.
Proof.
  split; [reflexivity|]. split; [reflexivity|].
  destruct (@shape_error_detected int _ Assign (colwise M23)
              (Operand.const (column_vector [7; 8; 9])) eq_refl eq_refl)
    as [[Hst _] | [_ Hrun]].
  - discriminate Hst.
  - exact Hrun.
Defined.

(** A vector of three coefficients of fixed size never compiles
    against the columns of a matrix of two rows of fixed size. *)
Example fixed_size_mismatch_rejected :
  VectorwiseOp.operator_assign (colwise M23_fixed) (Operand.const vector3_fixed)
  = StaticAssertFailed
  /\ VectorwiseOp.operator_plus_assign (colwise M23_fixed)
                                       (Operand.const vector3_fixed)
     = StaticAssertFailed.
Proof. split; reflexivity. Qed.


(** C5 fails on the code: on the null matrix, which has no sub-vector,
    [colwise() = v] with a dynamic vector [v] of three coefficients is
    a shape error, yet the loop body never runs, no check is made and
    the call returns normally.  The sibling [colwise() + v] rejects the
    same operand. *)
Lemma shape_error_undetected_counterexample :
  let other := column_vector [7; 8; 9] in
  MatrixBase.wf null_matrix = true
  /\ MatrixBase.wf other = true
  /\ VectorwiseOp.operand_ok (colwise null_matrix) (Operand.const other) = false
  /\ VectorwiseOp.operator_assign (colwise null_matrix) (Operand.const other)
     = Done null_matrix {| target := null_matrix; visited := [] |}
  /\ VectorwiseOp.operator_plus (colwise null_matrix) other
     = AssertFailed {| target := null_matrix; visited := [] |}.
Proof. repeat split; reflexivity. Qed.

(** C9.  Each of the three broadcast assignments, given a vector
    operand of the extents of a sub-vector, applies the operand to the
    sub-vectors in ascending order, from index 0 through
    [subVectors()-1], where [subVectors()] is the number of rows when
    the direction collapses the columns ([Horizontal]) and the number of
    columns otherwise, and returns the mutated underlying expression.
    This holds whatever the operand reads; when it reads nothing of the
    expression, every coefficient has had the operand applied once. *)
Theorem broadcast_ascending_order {Scalar} `{ScalarOps Scalar}
        (k : AssignKind) (v : VectorwiseOp.t Scalar) (other : Operand.t Scalar)
        (Hshape : VectorwiseOp.operand_ok v other = true) :
  let d := VectorwiseOp.Direction v in
  let m := VectorwiseOp.m_matrix v in
  VectorwiseOp.subVectors d m
  = match d with
    | Horizontal => MatrixBase.rows m
    | Vertical => MatrixBase.cols m
    end
  /\ exists w,
      VectorwiseOp.broadcast k v other = Done (target w) w
      /\ visited w = range (VectorwiseOp.subVectors d m)
      /\ MatrixBase.rows (target w) = MatrixBase.rows m
      /\ MatrixBase.cols (target w) = MatrixBase.cols m
      /\ (Operand.independent other ->
          forall r c,
            0 <= r < MatrixBase.rows m -> 0 <= c < MatrixBase.cols m ->
            MatrixBase.coeff (target w) r c
            = assign_fun k (MatrixBase.coeff m r c)
                         (operand_at d (Operand.eval other m) r c)).
Proof.
  intros d m. split.
  - unfold VectorwiseOp.subVectors. destruct d; reflexivity.
  - destruct (broadcast_fits k v other Hshape) as (w & Hrun & Hr & Hc & Hv & Hco).
    exists w. repeat split; try assumption.
    intros Hind r c Hrr Hcc. rewrite (Hco Hind). fold d m.
    now rewrite (touched_valid d m Hrr Hcc).
Qed.

Lemma broadcast_ascending_order_witness :
  VectorwiseOp.operand_ok (rowwise M23) (Operand.const (row_vector [10; 20; 30]))
  = true
  /\ exists w,
      VectorwiseOp.operator_assign (rowwise M23)
                                   (Operand.const (row_vector [10; 20; 30]))
      = Done (target w) w
      /\ visited w = [0; 1]
      /\ MatrixBase.to_lists (target w) = [[10; 20; 30]; [10; 20; 30]].
Proof.
  split; [reflexivity|].
  destruct (@broadcast_ascending_order int _ Assign (rowwise M23)
              (Operand.const (row_vector [10; 20; 30])) eq_refl)
    as (_ & w & Hrun & Hv & _).
  exists w. split; [exact Hrun|]. split; [exact Hv|].
  injection Hrun as <- _. reflexivity.
Defined.

(** * Further properties of the header *)

(** ** Shape and cost of a partial reduction *)

(** Whatever its functor, a partial reduction of a well-formed
    expression is a well-formed expression of a vector type: extent 1,
    at run time and at compile time, along the axis its direction
    collapses, and the extents of the source along the other. *)
Theorem partial_redux_is_vector {InputScalar}
        (p : PartialReduxExpr.t InputScalar)
        (Hwf : MatrixBase.wf (PartialReduxExpr.m_matrix p) = true) :
  MatrixBase.wf (PartialReduxExpr.as_expr p) = true
  /\ MatrixBase.IsVectorAtCompileTime (PartialReduxExpr.as_expr p) = true
  /\ collapsed_extent (PartialReduxExpr.Direction p)
                      (PartialReduxExpr.rows p) (PartialReduxExpr.cols p) = 1
  /\ other_extent (PartialReduxExpr.Direction p)
                  (PartialReduxExpr.rows p) (PartialReduxExpr.cols p)
     = other_extent (PartialReduxExpr.Direction p)
                    (MatrixBase.rows (PartialReduxExpr.m_matrix p))
                    (MatrixBase.cols (PartialReduxExpr.m_matrix p)).
Proof.
  destruct p as [d m f]. cbn [PartialReduxExpr.m_matrix] in Hwf.
  unfold MatrixBase.wf in Hwf.
  apply andb_true_iff in Hwf as [Hwf Hce].
  apply andb_true_iff in Hwf as [Hwf Hre].
  apply andb_true_iff in Hwf as [Hr Hc].
  destruct d; unfold MatrixBase.wf, MatrixBase.IsVectorAtCompileTime; cbn.
  - rewrite Hc, Hce. repeat split.
  - rewrite Hr, Hre. repeat split. apply orb_true_r.
Qed.

Lemma partial_redux_is_vector_witness :
  MatrixBase.wf M23 = true
  /\ MatrixBase.IsVectorAtCompileTime
       (PartialReduxExpr.as_expr (VectorwiseOp.maxCoeff (rowwise M23))) = true.
Proof.
  split; [reflexivity|].
  exact (proj1 (proj2 (partial_redux_is_vector
                         (VectorwiseOp.maxCoeff (rowwise M23)) eq_refl))).
Defined.

(** The traversal size a partial reduction declares is 1 in both
    directions, whatever the extents of the source, because it reads
    the extents of the reduction itself.  The cost of reading one
    coefficient is therefore the cost of reading one coefficient of the
    source plus the functor's cost at size 1, and does not grow with
    the length of the reduced sub-vectors. *)
Theorem traversal_size_is_one {InputScalar} (p : PartialReduxExpr.t InputScalar)
        (dynamic : Z) (nt : NumTraits) (member : Member)
        (nested functorCost : Z) :
  PartialReduxExpr.TraversalSize p = Fixed 1
  /\ PartialReduxExpr.CoeffReadCost dynamic nt member nested p
     = nested + match member with
                | member_squaredNorm | member_mean => MulCost nt
                | member_norm | member_stableNorm | member_blueNorm =>
                    6 * MulCost nt
                | _ => 0
                end
  /\ PartialReduxExpr.redux_CoeffReadCost dynamic functorCost nested p = nested.
Proof.
  assert (Hsize : PartialReduxExpr.TraversalSize p = Fixed 1)
    by (destruct p as [[|] m f]; reflexivity).
  unfold PartialReduxExpr.CoeffReadCost, PartialReduxExpr.redux_CoeffReadCost,
    redux_Cost.
  rewrite Hsize. cbn [extent_value].
  split; [reflexivity|]. split; [|lia].
  destruct member; unfold Cost; lia.
Qed.

(** ** Static shapes of [replicate] and [hnormalized] *)

(** [replicate] of a well-formed expression by a non-negative factor is
    well-formed, with a run-time factor and with a compile-time factor
    that the run-time argument repeats. *)
Theorem replicate_wf {Scalar} (v : VectorwiseOp.t Scalar) (n : Z)
        (Hwf : MatrixBase.wf (VectorwiseOp.m_matrix v) = true)
        (Hn : 0 <= n) :
  MatrixBase.wf (VectorwiseOp.replicate v n) = true
  /\ MatrixBase.wf (VectorwiseOp.replicate_static n v n) = true.
Proof.
  destruct v as [d m]. cbn [VectorwiseOp.m_matrix] in Hwf.
  unfold MatrixBase.wf in *.
  apply andb_true_iff in Hwf as [Hwf Hce].
  apply andb_true_iff in Hwf as [Hwf Hre].
  apply andb_true_iff in Hwf as [Hr Hc].
  apply Z.leb_le in Hr. apply Z.leb_le in Hc.
  destruct (MatrixBase.RowsAtCompileTime m) as [|sr] eqn:Er,
           (MatrixBase.ColsAtCompileTime m) as [|sc] eqn:Ec;
    cbn in Hre, Hce;
    try (apply Z.eqb_eq in Hre); try (apply Z.eqb_eq in Hce);
    destruct d; cbn -[Z.mul]; rewrite ?Er, ?Ec; cbn -[Z.mul];
    split; rewrite ?andb_true_iff, ?Z.leb_le, ?Z.eqb_eq; repeat split; nia.
Qed.

Lemma replicate_wf_witness :
  MatrixBase.wf M23 = true /\ 0 <= 3
  /\ MatrixBase.wf (VectorwiseOp.replicate (rowwise M23) 3) = true.
Proof.
  split; [reflexivity|]. split; [lia|].
  exact (proj1 (@replicate_wf int (rowwise M23) 3 eq_refl ltac:(lia))).
Defined.

(** The two sides of the quotient [hnormalized()] returns, the block
    of all coefficients but the last of every sub-vector and the
    replicated last coefficients, have the same static extents for
    every direction and every static shape of the expression. *)
Theorem hnormalized_static_shapes {Scalar} (v : VectorwiseOp.t Scalar) :
  VectorwiseOp.HNormalized_Replicate v = VectorwiseOp.HNormalized_Block v.
Proof.
  destruct v as [d m].
  unfold VectorwiseOp.HNormalized_Replicate, VectorwiseOp.HNormalized_Block,
    VectorwiseOp.HNormalized_Factors, VectorwiseOp.HNormalized_SizeMinusOne,
    VectorwiseOp.HNormalized_Size.
  destruct d; cbn -[Z.mul];
    destruct (MatrixBase.RowsAtCompileTime m), (MatrixBase.ColsAtCompileTime m);
    cbn -[Z.mul]; rewrite ?Z.mul_1_r, ?Z.mul_1_l; reflexivity.
Qed.

(** ** Broadcast assignment, further *)

Section BroadcastFurther.
Context {Scalar : Type} `{ScalarOps Scalar}.

(** What [sized_to_subVector] says in each direction. *)
Lemma sized_to_subVector_spec (v : VectorwiseOp.t Scalar)
      (other : MatrixBase.t Scalar) :
  VectorwiseOp.sized_to_subVector v other = true <->
  match VectorwiseOp.Direction v with
  | Vertical =>
      MatrixBase.rows other = MatrixBase.rows (VectorwiseOp.m_matrix v)
      /\ MatrixBase.cols other = 1
  | Horizontal =>
      MatrixBase.rows other = 1
      /\ MatrixBase.cols other = MatrixBase.cols (VectorwiseOp.m_matrix v)
  end.
Proof.
  destruct v as [d m]. unfold VectorwiseOp.sized_to_subVector.
  destruct d; cbn; rewrite andb_true_iff, !Z.eqb_eq; reflexivity.
Qed.

(** The replicated operand, coefficient by coefficient. *)
Lemma extendedTo_coeff (v : VectorwiseOp.t Scalar) (other : MatrixBase.t Scalar) :
  VectorwiseOp.shape_ok v other = true ->
  exists e,
    VectorwiseOp.extendedTo v other = Done e (VectorwiseOp.initial v)
    /\ MatrixBase.rows e = MatrixBase.rows (VectorwiseOp.m_matrix v)
    /\ MatrixBase.cols e = MatrixBase.cols (VectorwiseOp.m_matrix v)
    /\ forall r c,
        0 <= r < MatrixBase.rows (VectorwiseOp.m_matrix v) ->
        0 <= c < MatrixBase.cols (VectorwiseOp.m_matrix v) ->
        MatrixBase.coeff e r c = operand_at (VectorwiseOp.Direction v) other r c.
Proof.
  intros Hok. apply andb_true_iff in Hok as [Hvec Hsz].
  apply sized_to_subVector_spec in Hsz.
  unfold VectorwiseOp.extendedTo, VectorwiseOp.static_assert_vector_only.
  rewrite Hvec. eexists. split; [reflexivity|].
  destruct v as [d m]. destruct d; cbn -[Z.mul Z.rem] in Hsz |- *;
    destruct Hsz as [Hro Hco]; rewrite Hro, Hco.
  - split; [lia|]. split; [lia|]. intros r c Hr Hc.
    rewrite rem_small by lia. now rewrite Z.rem_1_r.
  - split; [lia|]. split; [lia|]. intros r c Hr Hc.
    rewrite (rem_small Hc). now rewrite Z.rem_1_r.
Qed.

End BroadcastFurther.

(** [operator=] copies the operand to each sub-vector: with a vector
    operand of the extents of a sub-vector that reads nothing of the
    expression being written, the call returns an expression every
    sub-vector of which equals the operand. *)
Theorem assign_copies_operand {Scalar} `{ScalarOps Scalar}
        (v : VectorwiseOp.t Scalar) (other : Operand.t Scalar)
        (Hshape : VectorwiseOp.operand_ok v other = true)
        (Hind : Operand.independent other) :
  let d := VectorwiseOp.Direction v in
  let m := VectorwiseOp.m_matrix v in
  exists w,
    VectorwiseOp.operator_assign v other = Done (target w) w
    /\ forall s,
        0 <= s < other_extent d (MatrixBase.rows m) (MatrixBase.cols m) ->
        MatrixBase.equiv (subVector_view d (target w) s) (Operand.eval other m).
Proof.
  intros d m.
  destruct (broadcast_fits Assign v other Hshape) as (w & Hrun & Hr & Hc & _ & Hco).
  specialize (Hco Hind). fold d m in Hr, Hc, Hco.
  exists w. split; [exact Hrun|].
  destruct (operand_ok_parts v other Hshape) as (_ & _ & Hsz).
  unfold fits in Hsz. fold d m in Hsz.
  apply andb_true_iff in Hsz as [Hro Hcl].
  apply Z.eqb_eq in Hro. apply Z.eqb_eq in Hcl.
  intros s Hs.
  destruct d; cbn in Hs, Hro, Hcl |- *; unfold MatrixBase.equiv; cbn.
  - split; [congruence|]. split; [congruence|].
    intros i j Hi Hj. rewrite Hco.
    replace (s + j) with s by lia. replace j with 0 by lia.
    rewrite touched_valid by lia. reflexivity.
  - split; [congruence|]. split; [congruence|].
    intros i j Hi Hj. rewrite Hco.
    replace (s + i) with s by lia. replace i with 0 by lia.
    rewrite touched_valid by lia. reflexivity.
Qed.

Lemma assign_copies_operand_witness :
  VectorwiseOp.operand_ok (colwise M23) (Operand.const (column_vector [7; 8])) = true
  /\ Operand.independent (Operand.const (column_vector [7; 8] : MatrixBase.t int))
  /\ exists w,
      VectorwiseOp.operator_assign (colwise M23) (Operand.const (column_vector [7; 8]))
      = Done (target w) w
      /\ MatrixBase.to_lists (target w) = [[7; 7; 7]; [8; 8; 8]].
Proof.
  split; [reflexivity|]. split; [intros m m' r c; reflexivity|].
  destruct (@assign_copies_operand int _ (colwise M23)
              (Operand.const (column_vector [7; 8])) eq_refl
              (fun m m' r c => eq_refl))
    as (w & Hrun & _).
  exists w. split; [exact Hrun|]. injection Hrun as <- _. reflexivity.
Defined.

(** On an expression without sub-vectors, each of the three
    assignments, given an operand that passes the static assertions (a
    vector type whose static size does not contradict that of a
    sub-vector), whatever its run-time size and whatever it reads, runs
    no size check, visits nothing and returns the expression as it is. *)
Theorem assignment_without_subVectors {Scalar} `{ScalarOps Scalar}
        (v : VectorwiseOp.t Scalar) (other : Operand.t Scalar)
        (Hvec : VectorwiseOp.static_assert_vector_only
                  (Operand.eval other (VectorwiseOp.m_matrix v)) = true)
        (Hst : VectorwiseOp.static_assert_same_size
                 v (Operand.eval other (VectorwiseOp.m_matrix v)) = true)
        (Hnone : VectorwiseOp.subVectors (VectorwiseOp.Direction v)
                                         (VectorwiseOp.m_matrix v) <= 0) :
  let unchanged :=
    Done (VectorwiseOp.m_matrix v)
         {| target := VectorwiseOp.m_matrix v; visited := [] |} in
  VectorwiseOp.operator_assign v other = unchanged
  /\ VectorwiseOp.operator_plus_assign v other = unchanged
  /\ VectorwiseOp.operator_minus_assign v other = unchanged.
Proof.
  repeat split.
  - exact (broadcast_empty Assign v other Hvec Hst Hnone).
  - exact (broadcast_empty PlusAssign v other Hvec Hst Hnone).
  - exact (broadcast_empty MinusAssign v other Hvec Hst Hnone).
Qed.

Lemma assignment_without_subVectors_witness :
  VectorwiseOp.static_assert_vector_only
    (Operand.eval (Operand.const (row_vector [1; 2; 3; 4])) null_matrix) = true
  /\ VectorwiseOp.static_assert_same_size
       (rowwise null_matrix)
       (Operand.eval (Operand.const (row_vector [1; 2; 3; 4])) null_matrix) = true
  /\ VectorwiseOp.subVectors Horizontal null_matrix <= 0
  /\ VectorwiseOp.operator_plus_assign (rowwise null_matrix)
                                       (Operand.const (row_vector [1; 2; 3; 4]))
     = Done null_matrix {| target := null_matrix; visited := [] |}.
Proof.
  split; [reflexivity|]. split; [reflexivity|]. split; [cbn; lia|].
  exact (proj1 (proj2 (@assignment_without_subVectors int _
                         (rowwise null_matrix)
                         (Operand.const (row_vector [1; 2; 3; 4]))
                         eq_refl eq_refl ltac:(cbn; lia)))).
Defined.

(** ** Broadcast arithmetic *)

(** [extendedTo] of a vector operand of the extents of a sub-vector has
    the extents of the expression, and every sub-vector of it equals
    the operand. *)
Theorem extendedTo_fills {Scalar} `{ScalarOps Scalar}
        (v : VectorwiseOp.t Scalar) (other : MatrixBase.t Scalar)
        (Hshape : VectorwiseOp.shape_ok v other = true) :
  exists e,
    VectorwiseOp.extendedTo v other = Done e (VectorwiseOp.initial v)
    /\ MatrixBase.rows e = MatrixBase.rows (VectorwiseOp.m_matrix v)
    /\ MatrixBase.cols e = MatrixBase.cols (VectorwiseOp.m_matrix v)
    /\ forall s,
        0 <= s < VectorwiseOp.subVectors (VectorwiseOp.Direction v)
                                         (VectorwiseOp.m_matrix v) ->
        MatrixBase.equiv
          (Block.view e (VectorwiseOp.subVector (VectorwiseOp.Direction v) e s))
          other.
Proof.
  destruct (extendedTo_coeff v other Hshape) as (e & He & Hr & Hc & Hco).
  exists e. split; [exact He|]. split; [exact Hr|]. split; [exact Hc|].
  apply andb_true_iff in Hshape as [_ Hsz].
  apply sized_to_subVector_spec in Hsz.
  intros s Hs. unfold VectorwiseOp.subVectors in Hs.
  destruct v as [d m]. destruct d; cbn in Hsz, Hs, Hr, Hc, Hco |- *;
    destruct Hsz as [Hro Hcl]; unfold MatrixBase.equiv; cbn.
  - split; [congruence|]. split; [congruence|].
    intros i j Hi Hj. rewrite ?Z.add_0_l. rewrite Hco by lia.
    now replace j with 0 by lia.
  - split; [congruence|]. split; [congruence|].
    intros i j Hi Hj. rewrite ?Z.add_0_l. rewrite Hco by lia.
    now replace i with 0 by lia.
Qed.

Lemma extendedTo_fills_witness :
  VectorwiseOp.shape_ok (rowwise M23) (row_vector [10; 20; 30]) = true
  /\ exists e,
      VectorwiseOp.extendedTo (rowwise M23) (row_vector [10; 20; 30])
      = Done e (VectorwiseOp.initial (rowwise M23))
      /\ MatrixBase.to_lists e = [[10; 20; 30]; [10; 20; 30]].
Proof.
  split; [reflexivity|].
  destruct (extendedTo_fills (rowwise M23) (row_vector [10; 20; 30]) eq_refl)
    as (e & He & _).
  exists e. split; [exact He|]. injection He as <-. reflexivity.
Defined.

(** The static test of [CwiseBinaryOp] on the expression and the
    replicated operand passes when that of the sub-vector assignment
    does. *)
Lemma extended_static_ok {Scalar} `{ScalarOps Scalar}
      (v : VectorwiseOp.t Scalar) (other e : MatrixBase.t Scalar)
      (w : World Scalar) :
  VectorwiseOp.static_assert_same_size v other = true ->
  VectorwiseOp.extendedTo v other = Done e w ->
  static_compatible (MatrixBase.RowsAtCompileTime (VectorwiseOp.m_matrix v))
                    (MatrixBase.RowsAtCompileTime e)
  && static_compatible (MatrixBase.ColsAtCompileTime (VectorwiseOp.m_matrix v))
                       (MatrixBase.ColsAtCompileTime e) = true.
Proof.
  unfold VectorwiseOp.extendedTo, VectorwiseOp.static_assert_same_size,
    VectorwiseOp.SubVector_static.
  destruct (VectorwiseOp.static_assert_vector_only other); [|discriminate].
  intros Hst [= <- _]. destruct v as [d m].
  destruct d; cbn -[Z.mul Z.eqb] in Hst |- *;
    destruct (MatrixBase.RowsAtCompileTime m) as [|x],
             (MatrixBase.ColsAtCompileTime m) as [|y],
             (MatrixBase.RowsAtCompileTime other) as [|x'],
             (MatrixBase.ColsAtCompileTime other) as [|y'];
    cbn -[Z.mul Z.eqb] in Hst |- *;
    rewrite ?andb_true_iff, ?Z.eqb_eq in Hst;
    rewrite ?andb_true_iff, ?Z.eqb_eq;
    intuition (try reflexivity; try nia).
Qed.

(** The non-mutating operators agree with the assignments: with a
    vector operand of the extents of a sub-vector that has storage of
    its own, [adaptor + v] is an expression equal to the one
    [adaptor += v] returns, and [adaptor - v] to the one [adaptor -= v]
    returns; the binary operators leave the expression as it is. *)
Theorem binary_agrees_with_assignment {Scalar} `{ScalarOps Scalar}
        (v : VectorwiseOp.t Scalar) (other : MatrixBase.t Scalar)
        (Hshape : VectorwiseOp.operand_ok v (Operand.const other) = true) :
  (exists e w,
      VectorwiseOp.operator_plus v other = Done e (VectorwiseOp.initial v)
      /\ VectorwiseOp.operator_plus_assign v (Operand.const other)
         = Done (target w) w
      /\ MatrixBase.equiv e (target w))
  /\ (exists e w,
         VectorwiseOp.operator_minus v other = Done e (VectorwiseOp.initial v)
         /\ VectorwiseOp.operator_minus_assign v (Operand.const other)
            = Done (target w) w
         /\ MatrixBase.equiv e (target w)).
Proof.
  assert (Hind : Operand.independent (Operand.const other))
    by (intros m m' r c; reflexivity).
  destruct (operand_ok_parts v (Operand.const other) Hshape) as (Hvec & Hst & Hsz).
  assert (Hok : VectorwiseOp.shape_ok v other = true).
  { unfold VectorwiseOp.shape_ok. apply andb_true_iff. split; assumption. }
  destruct (extendedTo_coeff v other Hok) as (e & He & Hre & Hce & Hcoe).
  pose proof (extended_static_ok v other Hst He) as Hse.
  change (VectorwiseOp.static_assert_vector_only other = true) in Hvec.
  split.
  - destruct (broadcast_fits PlusAssign v (Operand.const other) Hshape)
      as (w & Hrun & Hr & Hc & _ & Hco).
    specialize (Hco Hind).
    eexists. exists w. split; [|split; [exact Hrun|]].
    + unfold VectorwiseOp.operator_plus. rewrite Hvec, He.
      unfold CwiseBinaryOp. rewrite Hse, Hre, Hce, !Z.eqb_refl. reflexivity.
    + unfold MatrixBase.equiv. cbn. split; [congruence|]. split; [congruence|].
      intros i j Hi Hj. rewrite Hco, (touched_valid _ _ Hi Hj), Hcoe by assumption.
      reflexivity.
  - destruct (broadcast_fits MinusAssign v (Operand.const other) Hshape)
      as (w & Hrun & Hr & Hc & _ & Hco).
    specialize (Hco Hind).
    eexists. exists w. split; [|split; [exact Hrun|]].
    + unfold VectorwiseOp.operator_minus. rewrite Hvec, He.
      unfold CwiseBinaryOp. rewrite Hse, Hre, Hce, !Z.eqb_refl. reflexivity.
    + unfold MatrixBase.equiv. cbn. split; [congruence|]. split; [congruence|].
      intros i j Hi Hj. rewrite Hco, (touched_valid _ _ Hi Hj), Hcoe by assumption.
      reflexivity.
Qed.

Lemma binary_agrees_with_assignment_witness :
  VectorwiseOp.operand_ok (colwise M_ends) (Operand.const (column_vector [1; -1]))
  = true
  /\ exists e,
      VectorwiseOp.operator_plus (colwise M_ends) (column_vector [1; -1])
      = Done e (VectorwiseOp.initial (colwise M_ends))
      /\ MatrixBase.to_lists e = [[int_min; 3; 4]; [int_max; 4; 5]].
Proof.
  split; [reflexivity|].
  destruct (@binary_agrees_with_assignment int _ (colwise M_ends)
              (column_vector [1; -1]) eq_refl) as [(e & w & Hplus & _) _].
  exists e. split; [exact Hplus|]. injection Hplus as <-. reflexivity.
Defined.

(** On an expression with at least one sub-vector, [adaptor + v] and
    [adaptor - v] with an operand of a vector type that has not the
    extents of a sub-vector never build their expression and leave the
    wrapped expression as it is: the call is rejected when it is
    compiled if the static sizes of the expression and of the
    replicated operand are fixed and different, and fails the
    precondition of the elementwise expression otherwise. *)
Theorem binary_misfit {Scalar} `{ScalarOps Scalar}
        (v : VectorwiseOp.t Scalar) (other : MatrixBase.t Scalar)
        (Hvec : MatrixBase.IsVectorAtCompileTime other = true)
        (Hsz : VectorwiseOp.sized_to_subVector v other = false)
        (Hsub : 0 < VectorwiseOp.subVectors (VectorwiseOp.Direction v)
                                            (VectorwiseOp.m_matrix v)) :
  exists e,
    VectorwiseOp.extendedTo v other = Done e (VectorwiseOp.initial v)
    /\ let failure :=
         if static_compatible
              (MatrixBase.RowsAtCompileTime (VectorwiseOp.m_matrix v))
              (MatrixBase.RowsAtCompileTime e)
            && static_compatible
                 (MatrixBase.ColsAtCompileTime (VectorwiseOp.m_matrix v))
                 (MatrixBase.ColsAtCompileTime e)
         then AssertFailed (VectorwiseOp.initial v)
         else StaticAssertFailed in
       VectorwiseOp.operator_plus v other = failure
       /\ VectorwiseOp.operator_minus v other = failure.
Proof.
  assert (Hno : ~ VectorwiseOp.sized_to_subVector v other = true) by congruence.
  rewrite sized_to_subVector_spec in Hno.
  unfold VectorwiseOp.operator_plus, VectorwiseOp.operator_minus,
    VectorwiseOp.extendedTo, VectorwiseOp.static_assert_vector_only.
  rewrite Hvec. eexists. split; [reflexivity|].
  unfold CwiseBinaryOp, VectorwiseOp.subVectors in *.
  destruct (static_compatible _ _ && static_compatible _ _);
    [|split; reflexivity].
  destruct v as [d m]. destruct d; cbn -[Z.mul] in Hno, Hsub |- *.
  - destruct (Z.eqb_spec (MatrixBase.rows m) (MatrixBase.rows other * 1));
      destruct (Z.eqb_spec (MatrixBase.cols m)
                           (MatrixBase.cols other * MatrixBase.cols m));
      cbn; try (split; reflexivity).
    exfalso. apply Hno. split; nia.
  - destruct (Z.eqb_spec (MatrixBase.rows m)
                         (MatrixBase.rows other * MatrixBase.rows m));
      destruct (Z.eqb_spec (MatrixBase.cols m) (MatrixBase.cols other * 1));
      cbn; try (split; reflexivity).
    exfalso. apply Hno. split; nia.
Qed.

Lemma binary_misfit_witness :
  (MatrixBase.IsVectorAtCompileTime (column_vector [7; 8; 9]) = true
   /\ VectorwiseOp.sized_to_subVector (colwise M23) (column_vector [7; 8; 9]) = false
   /\ 0 < VectorwiseOp.subVectors Vertical M23
   /\ VectorwiseOp.operator_plus (colwise M23) (column_vector [7; 8; 9])
      = AssertFailed (VectorwiseOp.initial (colwise M23)))
  /\ (MatrixBase.IsVectorAtCompileTime vector3_fixed = true
      /\ VectorwiseOp.sized_to_subVector (colwise M23_fixed) vector3_fixed = false
      /\ 0 < VectorwiseOp.subVectors Vertical M23_fixed
      /\ VectorwiseOp.operator_plus (colwise M23_fixed) vector3_fixed
         = StaticAssertFailed).
Proof.
  split.
  - split; [reflexivity|]. split; [reflexivity|]. split; [reflexivity|].
    destruct (@binary_misfit int _ (colwise M23) (column_vector [7; 8; 9])
                eq_refl eq_refl eq_refl) as (e & He & Hplus & _).
    injection He as <-. exact Hplus.
  - split; [reflexivity|]. split; [reflexivity|]. split; [reflexivity|].
    destruct (@binary_misfit int _ (colwise M23_fixed) vector3_fixed
                eq_refl eq_refl eq_refl) as (e & He & Hplus & _).
    injection He as <-. exact Hplus.
Defined.

(** ** Reductions of reversed expressions *)

Lemma range_cons (n : Z) :
  0 <= n -> range (n + 1) = 0 :: map (fun i => 1 + i) (range n).
Proof.
  intros Hn. unfold range.
  replace (Z.to_nat (n + 1)) with (S (Z.to_nat n)) by lia.
  cbn [seq map]. f_equal.
  rewrite <- seq_shift, !map_map. apply map_ext. intros a. lia.
Qed.

Lemma map_rev_range {A} (g : Z -> A) (n : Z) :
  map (fun i => g (n - i - 1)) (range n) = rev (map g (range n)).
Proof.
  destruct (Z.le_gt_cases 0 n) as [Hn|Hn].
  - revert g. pattern n. apply natlike_ind; [reflexivity | | exact Hn].
    intros x Hx IH g. unfold Z.succ.
    rewrite (range_cons Hx) at 1. rewrite (range_succ Hx).
    rewrite map_app, rev_app_distr. cbn [map rev app]. f_equal.
    + f_equal. lia.
    + rewrite map_map, <- IH. apply map_ext. intros i. f_equal. lia.
  - now rewrite range_nonpos by lia.
Qed.

Section ReductionCoefficients.
Context {Scalar : Type} `{ScalarOps Scalar}.

Lemma sum_coeff_index (d : DirectionType) (m : MatrixBase.t Scalar) (k : Z) :
  PartialReduxExpr.coeff_index (VectorwiseOp.sum (vectorwise d m)) k
  = fold_left s_add (subVector_elements d m k) s_zero.
Proof.
  destruct d.
  - change (MatrixBase.sum (MatrixBase.col m k) = fold_left s_add (subVector_elements Vertical m k) s_zero).
    unfold MatrixBase.sum. now rewrite coeffs_col.
  - change (MatrixBase.sum (MatrixBase.row m k) = fold_left s_add (subVector_elements Horizontal m k) s_zero).
    unfold MatrixBase.sum. now rewrite coeffs_row.
Qed.

Lemma maxCoeff_coeff_index (d : DirectionType) (m : MatrixBase.t Scalar) (k : Z) :
  PartialReduxExpr.coeff_index (VectorwiseOp.maxCoeff (vectorwise d m)) k
  = match subVector_elements d m k with
    | [] => s_zero
    | x :: xs => fold_left s_max xs x
    end.
Proof.
  destruct d.
  - change (PartialReduxExpr.coeff_index (VectorwiseOp.maxCoeff (vectorwise Vertical m)) k)
      with (MatrixBase.maxCoeff (MatrixBase.col m k)).
    unfold MatrixBase.maxCoeff. now rewrite coeffs_col.
  - change (PartialReduxExpr.coeff_index (VectorwiseOp.maxCoeff (vectorwise Horizontal m)) k)
      with (MatrixBase.maxCoeff (MatrixBase.row m k)).
    unfold MatrixBase.maxCoeff. now rewrite coeffs_row.
Qed.

Lemma count_coeff_index (d : DirectionType) (m : MatrixBase.t Scalar) (k : Z) :
  PartialReduxExpr.coeff_index (VectorwiseOp.count (vectorwise d m)) k
  = Z.of_nat (length (filter s_true (subVector_elements d m k))).
Proof.
  destruct d.
  - change (PartialReduxExpr.coeff_index (VectorwiseOp.count (vectorwise Vertical m)) k)
      with (MatrixBase.count (MatrixBase.col m k)).
    unfold MatrixBase.count. now rewrite coeffs_col, count_fold.
  - change (PartialReduxExpr.coeff_index (VectorwiseOp.count (vectorwise Horizontal m)) k)
      with (MatrixBase.count (MatrixBase.row m k)).
    unfold MatrixBase.count. now rewrite coeffs_row, count_fold.
Qed.

End ReductionCoefficients.

(** [reverse()] puts the elements of every sub-vector in the opposite
    order and keeps the number of sub-vectors; the count reduction in
    the same direction does not see the difference. *)
Theorem reverse_subVector {Scalar} `{ScalarOps Scalar}
        (d : DirectionType) (m : MatrixBase.t Scalar) (k : Z) :
  let r := VectorwiseOp.reverse (vectorwise d m) in
  subVector_elements d r k = rev (subVector_elements d m k)
  /\ VectorwiseOp.subVectors d r = VectorwiseOp.subVectors d m
  /\ PartialReduxExpr.coeff_index (VectorwiseOp.count (vectorwise d r)) k
     = PartialReduxExpr.coeff_index (VectorwiseOp.count (vectorwise d m)) k.
Proof.
  intros r.
  assert (Hrev : subVector_elements d r k = rev (subVector_elements d m k)).
  { subst r. destruct d; unfold subVector_elements; cbn.
    - apply (map_rev_range (fun i => MatrixBase.coeff m i k)).
    - apply (map_rev_range (fun j => MatrixBase.coeff m k j)). }
  split; [exact Hrev|]. split; [destruct d; reflexivity|].
  rewrite !count_coeff_index, Hrev.
  now rewrite filter_rev, length_rev.
Qed.

(** Reducing along the other direction commutes with [reverse()]:
    sub-vector [k] of the other direction in the reversed expression is
    sub-vector [n - 1 - k] of the original, [n] being the length of the
    reversed sub-vectors, so the sum, the maximum and the count taken
    there are those of the original taken at [n - 1 - k]. *)
Theorem reverse_then_reduce_across {Scalar} `{ScalarOps Scalar}
        (d : DirectionType) (m : MatrixBase.t Scalar) (k : Z) :
  let r := VectorwiseOp.reverse (vectorwise d m) in
  let k' := collapsed_extent d (MatrixBase.rows m) (MatrixBase.cols m) - k - 1 in
  PartialReduxExpr.coeff_index (VectorwiseOp.sum (vectorwise (opposite d) r)) k
  = PartialReduxExpr.coeff_index (VectorwiseOp.sum (vectorwise (opposite d) m)) k'
  /\ PartialReduxExpr.coeff_index (VectorwiseOp.maxCoeff (vectorwise (opposite d) r)) k
     = PartialReduxExpr.coeff_index (VectorwiseOp.maxCoeff (vectorwise (opposite d) m)) k'
  /\ PartialReduxExpr.coeff_index (VectorwiseOp.count (vectorwise (opposite d) r)) k
     = PartialReduxExpr.coeff_index (VectorwiseOp.count (vectorwise (opposite d) m)) k'.
Proof.
  intros r k'.
  assert (He : subVector_elements (opposite d) r k
               = subVector_elements (opposite d) m k')
    by (subst r k'; destruct d; reflexivity).
  rewrite !sum_coeff_index, !maxCoeff_coeff_index, !count_coeff_index, He.
  repeat split.
Qed.

(** ** A reduction of a reduction *)

(** The sum of a list of integers before any wrap-around. *)
Definition Zsum (l : list Z) : Z := fold_right Z.add 0 l.

Lemma int_wrap_add_l (a b : Z) : int_wrap (int_wrap a + b) = int_wrap (a + b).
Proof.
  unfold int_wrap. f_equal.
  replace ((a + 2 ^ 31) mod 2 ^ 32 - 2 ^ 31 + b + 2 ^ 31)
    with ((a + 2 ^ 31) mod 2 ^ 32 + b) by lia.
  rewrite Zplus_mod_idemp_l. f_equal. lia.
Qed.

Lemma int_wrap_add_r (a b : Z) : int_wrap (a + int_wrap b) = int_wrap (a + b).
Proof. now rewrite Z.add_comm, int_wrap_add_l, Z.add_comm. Qed.

Lemma int_wrap_idem (a : Z) : int_wrap (int_wrap a) = int_wrap a.
Proof.
  pose proof (int_wrap_add_l a 0) as Hw. now rewrite !Z.add_0_r in Hw.
Qed.

(** Summing [int]s from a wrapped start is wrapping the exact sum. *)
Lemma fold_add_int (l : list int) :
  forall a, int_wrap a = a -> fold_left s_add l a = int_wrap (a + Zsum l).
Proof.
  induction l as [|x l IH]; intros a Ha; cbn [fold_left Zsum fold_right].
  - now rewrite Z.add_0_r.
  - rewrite IH by apply int_wrap_idem.
    cbn [s_add int_ops]. fold (Zsum l). rewrite int_wrap_add_l. f_equal. lia.
Qed.

Lemma sum_int (l : list int) : fold_left s_add l s_zero = int_wrap (Zsum l).
Proof. now rewrite fold_add_int. Qed.

Lemma Zsum_app (l1 l2 : list Z) : Zsum (l1 ++ l2) = Zsum l1 + Zsum l2.
Proof.
  induction l1 as [|x l1 IH]; cbn [app Zsum fold_right]; [reflexivity|].
  fold (Zsum (l1 ++ l2)) (Zsum l1). lia.
Qed.

Lemma int_wrap_Zsum_flat_map {A} (g : A -> list Z) (l : list A) :
  int_wrap (Zsum (map (fun x => int_wrap (Zsum (g x))) l))
  = int_wrap (Zsum (flat_map g l)).
Proof.
  induction l as [|x l IH]; cbn [map flat_map Zsum fold_right]; [reflexivity|].
  fold (Zsum (map (fun x => int_wrap (Zsum (g x))) l)).
  rewrite Zsum_app, int_wrap_add_l.
  rewrite <- int_wrap_add_r, IH, int_wrap_add_r. reflexivity.
Qed.

(** Summing the column sums of an [int] matrix along the row gives a
    1x1 expression whose coefficient is the sum of the whole matrix,
    wrap-around included. *)
Theorem sum_of_colwise_sums (m : MatrixBase.t int) :
  let sums : MatrixBase.t int :=
    PartialReduxExpr.as_expr (VectorwiseOp.sum (colwise m)) in
  let total := VectorwiseOp.sum (rowwise sums) in
  (PartialReduxExpr.rows total, PartialReduxExpr.cols total) = (1, 1)
  /\ PartialReduxExpr.coeff total 0 0 = MatrixBase.sum m.
Proof.
  intros sums total. split; [reflexivity|].
  change (PartialReduxExpr.coeff total 0 0)
    with (MatrixBase.sum (MatrixBase.row sums 0)).
  unfold MatrixBase.sum at 1. rewrite coeffs_row, sum_int.
  unfold MatrixBase.sum. rewrite sum_int.
  unfold subVector_elements, MatrixBase.coeffs.
  change (MatrixBase.cols sums) with (MatrixBase.cols m).
  rewrite <- int_wrap_Zsum_flat_map. do 2 f_equal.
  apply map_ext. intros j.
  change (MatrixBase.coeff sums 0 j) with (MatrixBase.sum (MatrixBase.col m j)).
  unfold MatrixBase.sum. rewrite coeffs_col, sum_int. reflexivity.
Qed.

(** ** Reductions of replicated and of assigned expressions *)

(** Reducing along the other direction sees the tiles of
    [replicate(n)]: sub-vector [i] of the other direction in the
    replicated expression has the elements of sub-vector [i rem len] of
    the original, [len] being the length of the replicated sub-vectors,
    so the sum, the maximum and the count taken there repeat with
    period [len]. *)
Theorem replicate_then_reduce_across {Scalar} `{ScalarOps Scalar}
        (d : DirectionType) (m : MatrixBase.t Scalar) (n i : Z) :
  let r := VectorwiseOp.replicate (vectorwise d m) n in
  let i' := Z.rem i (collapsed_extent d (MatrixBase.rows m) (MatrixBase.cols m)) in
  PartialReduxExpr.coeff_index (VectorwiseOp.sum (vectorwise (opposite d) r)) i
  = PartialReduxExpr.coeff_index (VectorwiseOp.sum (vectorwise (opposite d) m)) i'
  /\ PartialReduxExpr.coeff_index (VectorwiseOp.maxCoeff (vectorwise (opposite d) r)) i
     = PartialReduxExpr.coeff_index (VectorwiseOp.maxCoeff (vectorwise (opposite d) m)) i'
  /\ PartialReduxExpr.coeff_index (VectorwiseOp.count (vectorwise (opposite d) r)) i
     = PartialReduxExpr.coeff_index (VectorwiseOp.count (vectorwise (opposite d) m)) i'.
Proof.
  intros r i'.
  assert (He : subVector_elements (opposite d) r i
               = subVector_elements (opposite d) m i').
  { subst r i'. destruct d; unfold subVector_elements; cbn -[Z.rem Z.mul];
      rewrite Z.mul_1_r; apply map_ext_in; intros a Ha;
      apply in_range in Ha; now rewrite (rem_small Ha). }
  rewrite !sum_coeff_index, !maxCoeff_coeff_index, !count_coeff_index, He.
  repeat split.
Qed.

(** Element [i] of sub-vector [k]. *)
Definition subVector_element {Scalar} (d : DirectionType)
           (m : MatrixBase.t Scalar) (k i : Z) : Scalar :=
  match d with
  | Vertical => MatrixBase.coeff m i k
  | Horizontal => MatrixBase.coeff m k i
  end.

Section AssignedElements.
Context {Scalar : Type} `{ScalarOps Scalar}.

Lemma subVector_elements_map (d : DirectionType) (m : MatrixBase.t Scalar) (k : Z) :
  subVector_elements d m k
  = map (subVector_element d m k)
        (range (collapsed_extent d (MatrixBase.rows m) (MatrixBase.cols m))).
Proof. destruct d; reflexivity. Qed.

(** The coefficients of a vector of the extents of a sub-vector. *)
Lemma coeffs_operand (v : VectorwiseOp.t Scalar) (other : MatrixBase.t Scalar) :
  VectorwiseOp.sized_to_subVector v other = true ->
  MatrixBase.coeffs other
  = map (fun i => operand_at (VectorwiseOp.Direction v) other i i)
        (range (collapsed_extent (VectorwiseOp.Direction v)
                                 (MatrixBase.rows (VectorwiseOp.m_matrix v))
                                 (MatrixBase.cols (VectorwiseOp.m_matrix v)))).
Proof.
  intros Hsz. apply sized_to_subVector_spec in Hsz.
  destruct v as [d m]. unfold MatrixBase.coeffs.
  destruct d; cbn in Hsz |- *; destruct Hsz as [-> ->]; rewrite range_1.
  - cbn [flat_map]. now rewrite app_nil_r.
  - cbn [map]. now rewrite flat_map_singleton.
Qed.

(** The elements of a sub-vector after a broadcast assignment whose
    operand reads nothing of the expression. *)
Lemma broadcast_subVector_elements (kd : AssignKind) (v : VectorwiseOp.t Scalar)
      (other : Operand.t Scalar) :
  VectorwiseOp.operand_ok v other = true ->
  Operand.independent other ->
  exists w,
    VectorwiseOp.broadcast kd v other = Done (target w) w
    /\ forall k,
        0 <= k < other_extent (VectorwiseOp.Direction v)
                              (MatrixBase.rows (VectorwiseOp.m_matrix v))
                              (MatrixBase.cols (VectorwiseOp.m_matrix v)) ->
        subVector_elements (VectorwiseOp.Direction v) (target w) k
        = map (fun i =>
                 assign_fun kd
                   (subVector_element (VectorwiseOp.Direction v)
                                      (VectorwiseOp.m_matrix v) k i)
                   (operand_at (VectorwiseOp.Direction v)
                               (Operand.eval other (VectorwiseOp.m_matrix v)) i i))
              (range (collapsed_extent (VectorwiseOp.Direction v)
                                       (MatrixBase.rows (VectorwiseOp.m_matrix v))
                                       (MatrixBase.cols (VectorwiseOp.m_matrix v)))).
Proof.
  intros Hshape Hind.
  destruct (broadcast_fits kd v other Hshape) as (w & Hrun & Hr & Hc & _ & Hco).
  specialize (Hco Hind).
  exists w. split; [exact Hrun|].
  intros k Hk.
  destruct v as [d m]. destruct d; cbn in Hk, Hr, Hc, Hco |- *;
    rewrite ?Hr, ?Hc; apply map_ext_in; intros i Hi; apply in_range in Hi;
    rewrite Hco.
  - assert (Ht : touched Vertical m 0 i k = true) by (apply touched_valid; lia).
    cbn in Ht. now rewrite Ht.
  - assert (Ht : touched Horizontal m 0 k i = true) by (apply touched_valid; lia).
    cbn in Ht. now rewrite Ht.
Qed.

End AssignedElements.

(** After [adaptor = v] with an operand that reads nothing of the
    expression, every partial reduction along the adaptor's direction
    is constant: the sum, the maximum and the count of every sub-vector
    are the sum, the maximum and the count of [v]. *)
Theorem assign_then_reduce {Scalar} `{ScalarOps Scalar}
        (v : VectorwiseOp.t Scalar) (other : Operand.t Scalar)
        (Hshape : VectorwiseOp.operand_ok v other = true)
        (Hind : Operand.independent other) :
  let d := VectorwiseOp.Direction v in
  let m := VectorwiseOp.m_matrix v in
  let value := Operand.eval other m in
  exists w,
    VectorwiseOp.operator_assign v other = Done (target w) w
    /\ forall k,
        0 <= k < other_extent d (MatrixBase.rows m) (MatrixBase.cols m) ->
        PartialReduxExpr.coeff_index (VectorwiseOp.sum (vectorwise d (target w))) k
        = MatrixBase.sum value
        /\ PartialReduxExpr.coeff_index
             (VectorwiseOp.maxCoeff (vectorwise d (target w))) k
           = MatrixBase.maxCoeff value
        /\ PartialReduxExpr.coeff_index
             (VectorwiseOp.count (vectorwise d (target w))) k
           = MatrixBase.count value.
Proof.
  intros d m value.
  destruct (@broadcast_subVector_elements _ _ Assign v other Hshape Hind)
    as (w & Hrun & Hel).
  exists w. split; [exact Hrun|]. intros k Hk.
  destruct (operand_ok_parts v other Hshape) as (_ & _ & Hsz).
  rewrite sum_coeff_index, maxCoeff_coeff_index, count_coeff_index.
  fold d m in Hel. rewrite (Hel k Hk). cbn [assign_fun].
  unfold MatrixBase.sum, MatrixBase.maxCoeff, MatrixBase.count.
  rewrite (coeffs_operand v value Hsz), count_fold. fold d m.
  repeat split.
Qed.

Lemma assign_then_reduce_witness :
  VectorwiseOp.operand_ok (rowwise M23) (Operand.const (row_vector [10; 20; 30]))
  = true
  /\ Operand.independent (Operand.const (row_vector [10; 20; 30] : MatrixBase.t int))
  /\ exists w,
      VectorwiseOp.operator_assign (rowwise M23)
                                   (Operand.const (row_vector [10; 20; 30]))
      = Done (target w) w
      /\ PartialReduxExpr.coeff_index
           (VectorwiseOp.sum (rowwise (target w))) 1 = 60.
Proof.
  split; [reflexivity|]. split; [intros m m' r c; reflexivity|].
  destruct (@assign_then_reduce int _ (rowwise M23)
              (Operand.const (row_vector [10; 20; 30])) eq_refl
              (fun m m' r c => eq_refl))
    as (w & Hrun & Hred).
  exists w. split; [exact Hrun|].
  exact (proj1 (Hred 1 ltac:(cbn; lia))).
Defined.

Lemma int_wrap_Zsum_map {A} (f : A -> Z) (l : list A) :
  int_wrap (Zsum (map (fun x => int_wrap (f x)) l)) = int_wrap (Zsum (map f l)).
Proof.
  induction l as [|x l IH]; cbn [map Zsum fold_right]; [reflexivity|].
  fold (Zsum (map (fun x => int_wrap (f x)) l)) (Zsum (map f l)).
  rewrite int_wrap_add_l, <- int_wrap_add_r, IH, int_wrap_add_r. reflexivity.
Qed.

Lemma Zsum_map_add {A} (f g : A -> Z) (l : list A) :
  Zsum (map (fun x => f x + g x) l) = Zsum (map f l) + Zsum (map g l).
Proof.
  induction l as [|x l IH]; cbn [map Zsum fold_right]; [reflexivity|].
  fold (Zsum (map (fun x => f x + g x) l)) (Zsum (map f l)) (Zsum (map g l)).
  lia.
Qed.

(** On an [int] expression, after [adaptor += v] with an operand that
    reads nothing of the expression, the sum of every sub-vector along
    the adaptor's direction is its sum before plus the sum of [v],
    wrap-around included. *)
Theorem plus_assign_then_sum (v : VectorwiseOp.t int) (other : Operand.t int)
        (Hshape : VectorwiseOp.operand_ok v other = true)
        (Hind : Operand.independent other) :
  let d := VectorwiseOp.Direction v in
  let m := VectorwiseOp.m_matrix v in
  exists w,
    VectorwiseOp.operator_plus_assign v other = Done (target w) w
    /\ forall k,
        0 <= k < other_extent d (MatrixBase.rows m) (MatrixBase.cols m) ->
        PartialReduxExpr.coeff_index (VectorwiseOp.sum (vectorwise d (target w))) k
        = s_add (PartialReduxExpr.coeff_index (VectorwiseOp.sum (vectorwise d m)) k)
                (MatrixBase.sum (Operand.eval other m)).
Proof.
  intros d m.
  destruct (@broadcast_subVector_elements _ _ PlusAssign v other Hshape Hind)
    as (w & Hrun & Hel).
  exists w. split; [exact Hrun|]. intros k Hk.
  destruct (operand_ok_parts v other Hshape) as (_ & _ & Hsz).
  rewrite !sum_coeff_index. fold d m in Hel. rewrite (Hel k Hk).
  unfold MatrixBase.sum. rewrite (coeffs_operand v (Operand.eval other m) Hsz).
  fold d m.
  rewrite subVector_elements_map, !sum_int.
  cbn [assign_fun s_add int_ops].
  rewrite (int_wrap_Zsum_map
             (fun i => subVector_element d m k i
                       + operand_at d (Operand.eval other m) i i)).
  rewrite Zsum_map_add, int_wrap_add_l, int_wrap_add_r. reflexivity.
Qed.

Lemma plus_assign_then_sum_witness :
  VectorwiseOp.operand_ok (colwise M_ends) (Operand.const (column_vector [1; -1]))
  = true
  /\ Operand.independent (Operand.const (column_vector [1; -1] : MatrixBase.t int))
  /\ exists w,
      VectorwiseOp.operator_plus_assign (colwise M_ends)
                                        (Operand.const (column_vector [1; -1]))
      = Done (target w) w
      /\ PartialReduxExpr.coeff_index (VectorwiseOp.sum (colwise (target w))) 0
         = -1.
Proof.
  split; [reflexivity|]. split; [intros m m' r c; reflexivity|].
  destruct (@plus_assign_then_sum (colwise M_ends)
              (Operand.const (column_vector [1; -1])) eq_refl
              (fun m m' r c => eq_refl))
    as (w & Hrun & Hsum).
  exists w. split; [exact Hrun|].
  exact (Hsum 0 ltac:(cbn; lia)).
Defined.
